(** * Population Based Training scheduler ([pbt/core.py])

    A shallow embedding of the [Worker] and [PBTTrainer] classes, and the
    properties of the scheduler established over it.

    Conventions of the embedding.
    - Python numbers (hyperparameter values, scores, randomisation scales,
      explore factors, uniform draws) are rationals [Q]; the rounding of
      binary64 arithmetic and the unordered value NaN are not modelled.
    - A Python [dict] is an association list in insertion order; a
      well-formed dict ([dict_wf]) has no repeated key.
    - An object mutated in place is a record that is passed and returned;
      [dc] (deepcopy) is the identity on these immutable values.
    - A raised exception is the left injection of [result].
    - [np.random.uniform] reads the next unit draw of a stream [draws]; the
      position in the stream is threaded through the code that draws.
    - The model factory, the trainer, the evaluator and the methods of the
      model object are caller-supplied: they are the fields of the class
      [Collaborators], taken to return normally. *)

From Stdlib Require Import QArith Qround Lqa Sorted Permutation.
From stdpp Require Import base list strings.

(** ** Exceptions *)

Inductive exn : Type :=
| KeyError (key : string)      (* d[k] with k absent from the dict d *)
| IndexError                   (* l[i] with i out of range *)
| ZeroDivisionError            (* 1/x with x = 0 *)
| ValueError.                  (* np.max of an empty sequence *)

Definition result (A : Type) : Type := exn + A.

(** The lookup failures that Python raises by itself on a subscript. *)
Definition raw_lookup_failure (e : exn) : Prop :=
  match e with
  | KeyError _ | IndexError => True
  | ZeroDivisionError | ValueError => False
  end.

(** Code that may raise and that may draw from the random stream: the
    position in the stream goes in and comes out. *)
Definition M (A : Type) : Type := nat -> result (A * nat).

Definition ret {A} (a : A) : M A := fun pos => inr (a, pos).
Definition raise {A} (e : exn) : M A := fun _ => inl e.
Definition bind {A B} (k : A -> M B) (m : M A) : M B :=
  fun pos => match m pos with
             | inl e => inl e
             | inr (a, pos') => k a pos'
             end.

(** The notation [x ← m; k] of stdpp stands for [bind (fun x => k) m]. *)
#[export] Instance M_ret : MRet M := @ret.
#[export] Instance M_bind : MBind M := @bind.

(** [for x in xs: body], the loop state being [a]. *)
Fixpoint for_each {X A} (xs : list X) (body : X -> A -> M A) (a : A) : M A :=
  match xs with
  | [] => ret a
  | x :: xs' => a' ← body x a; for_each xs' body a'
  end.

(** [l[i]] for [i >= 0]. *)
Definition subscript {A} (l : list A) (i : nat) : M A :=
  match l !! i with
  | Some a => ret a
  | None => raise IndexError
  end.

(** ** Dictionaries *)

Definition dict (V : Type) : Type := list (string * V).

Definition keys {V} (d : dict V) : list string := d.*1.

Definition dict_wf {V} (d : dict V) : Prop := NoDup (keys d).

Fixpoint dict_get {V} (d : dict V) (k : string) : option V :=
  match d with
  | [] => None
  | (k', v) :: d' => if decide (k' = k) then Some v else dict_get d' k
  end.

(** [d[k] = v]: the value of an existing key is replaced where it stands, a
    new key goes at the end. *)
Fixpoint dict_set {V} (d : dict V) (k : string) (v : V) : dict V :=
  match d with
  | [] => [(k, v)]
  | (k', v') :: d' =>
      if decide (k' = k) then (k', v) :: d' else (k', v') :: dict_set d' k v
  end.

(** [d[k]] as an expression. *)
Definition getitem {V} (d : dict V) (k : string) : M V :=
  match dict_get d k with
  | Some v => ret v
  | None => raise (KeyError k)
  end.

(** ** Numbers *)

Definition Qlt_bool (x y : Q) : bool :=
  match (x ?= y)%Q with Lt => true | _ => false end.

(** [np.random.uniform(low, high)]: the next unit draw [r], in [0, 1), is
    mapped to [low + (high - low) * r]. *)
Section Random.
Variable draws : nat -> Q.

Definition uniform (low high : Q) : M Q :=
  fun pos => inr ((low + (high - low) * draws pos)%Q, S pos).
End Random.

(** [1/x] on Python numbers. *)
Definition one_over (x : Q) : M Q :=
  if Qeq_bool x 0 then raise ZeroDivisionError else ret (1 / x)%Q.

(** ** [sorted(xs, key=...)]

    Python's [sorted] is stable and compares keys with [<] only.  On keys
    that [<] orders totally the result of a stable sort is determined by its
    input, so the insertion sort below computes it. *)
Section Sorted.
Variable key : nat -> Q.

Fixpoint insert_by (x : nat) (l : list nat) : list nat :=
  match l with
  | [] => [x]
  | y :: l' =>
      if Qlt_bool (key y) (key x) then y :: insert_by x l' else x :: y :: l'
  end.

Definition sorted (xs : list nat) : list nat := foldr insert_by [] xs.
End Sorted.

(** [range(n)] *)
Definition range (n : nat) : list nat := seq 0 n.

(** ** The caller-supplied collaborators

    [PBTTrainer] receives a model class, a training function and an
    evaluation function, and calls three methods on the model object.  A call
    that mutates the model object returns the object it leaves. *)
Class Collaborators : Type := {
  Model : Type;
  Weights : Type;
  Kwargs : Type;                (* config['trainer'] and config['evaluator'] *)
  Losses : Type;                (* what the training function returns *)
  model_class : dict Q -> Model;                    (* model(hp as keywords) *)
  trainer_fn : Model -> Kwargs -> Model * Losses;   (* trainer(model, kwargs as keywords) *)
  evaluator_fn : Model -> Kwargs -> Model * Q;      (* evaluator(model, kwargs as keywords) *)
  get_weights : Model -> Weights;                   (* m.model.get_weights() *)
  set_weights : Model -> Weights -> Model;          (* m.model.set_weights(w) *)
  set_hyperparameters : Model -> dict Q -> Model    (* m.set_hyperparameters(hp as keywords) *)
}.

(** ** The config dict: a dictionary of dictionaries with the keys
    'generation', 'hyperparameters', 'trainer' and 'evaluator'. *)
Module Config.
Section Config.
Context `{Collaborators}.

Record t : Type := {
  generation : nat;
  hyperparameters : dict Q;
  trainer : Kwargs;
  evaluator : Kwargs
}.

(** [config['hyperparameters'] = hp] *)
Definition with_hyperparameters (config : t) (hp : dict Q) : t :=
  {| generation := generation config;
     hyperparameters := hp;
     trainer := trainer config;
     evaluator := evaluator config |}.
End Config.
End Config.

(** Deep copy of an immutable value. *)
Definition dc {A} (a : A) : A := a.

(** ** class Worker *)
Module Worker.
Section Worker.
Context `{Collaborators}.

(** The attributes [losses] and [score] exist once [train] and [evaluate]
    have run; [trainer] and [evaluator] are the collaborators. *)
Record t : Type := {
  model : Model;
  config : Config.t;
  losses : option Losses;
  score : option Q
}.

Definition init (config : Config.t) : t :=
  {| model := model_class (Config.hyperparameters config);
     config := config;
     losses := None;
     score := None |}.

(** [train] and [evaluate] return, next to the worker they leave, the value
    they stored in it, for [run] to read back. *)
Definition train (self : t) : t * Losses :=
  let '(m, l) := trainer_fn (model self) (Config.trainer (config self)) in
  ({| model := m; config := config self;
      losses := Some l; score := score self |}, l).

Definition evaluate (self : t) : t * Q :=
  let '(m, s) := evaluator_fn (model self) (Config.evaluator (config self)) in
  ({| model := m; config := config self;
      losses := losses self; score := Some s |}, s).

Definition run (self : t) : t * (Losses * Q) :=
  let '(self, l) := train self in
  let '(self, s) := evaluate self in
  (self, (l, s)).

Definition with_model (self : t) (m : Model) : t :=
  {| model := m; config := config self;
     losses := losses self; score := score self |}.
End Worker.
End Worker.

(** [l[-1]] *)
Definition last_item {A} (l : list A) : M A :=
  match last l with
  | Some a => ret a
  | None => raise IndexError
  end.

(** [ll[-1].append(x)] *)
Definition append_to_last {A} (ll : list (list A)) (x : A) : M (list (list A)) :=
  row ← last_item ll;
  ret (<[pred (length ll) := row ++ [x]]> ll).

(** [np.max(l)] *)
Definition np_max (l : list Q) : M Q :=
  match l with
  | [] => raise ValueError
  | x :: l' => ret (foldl (fun m y => if Qlt_bool m y then y else m) x l')
  end.

(** ** class PBTTrainer *)
Module PBTTrainer.
Section PBTTrainer.
Context `{Collaborators}.
Variable draws : nat -> Q.

(** The attributes [model], [trainer] and [evaluator] are the
    collaborators. *)
Record t : Type := {
  pop_size : nat;
  generations : nat;
  generation : nat;
  rank : string;
  explore : Q * Q;
  config : Config.t;
  losses : list (list Losses);
  scores : list (list Q);
  population : list Worker.t
}.

Definition with_generation (self : t) (g : nat) : t :=
  {| pop_size := pop_size self; generations := generations self;
     generation := g; rank := rank self; explore := explore self;
     config := config self; losses := losses self; scores := scores self;
     population := population self |}.

Definition with_losses (self : t) (l : list (list Losses)) : t :=
  {| pop_size := pop_size self; generations := generations self;
     generation := generation self; rank := rank self;
     explore := explore self; config := config self; losses := l;
     scores := scores self; population := population self |}.

Definition with_scores (self : t) (s : list (list Q)) : t :=
  {| pop_size := pop_size self; generations := generations self;
     generation := generation self; rank := rank self;
     explore := explore self; config := config self; losses := losses self;
     scores := s; population := population self |}.

Definition with_population (self : t) (p : list Worker.t) : t :=
  {| pop_size := pop_size self; generations := generations self;
     generation := generation self; rank := rank self;
     explore := explore self; config := config self; losses := losses self;
     scores := scores self; population := p |}.

(** *** [__init__] *)

(** The inner loop of [__init__]: every hyperparameter of the base config
    is redrawn in the copy. *)
Definition randomize (rand_scales base_hp : dict Q) (new_hp : dict Q)
  : M (dict Q) :=
  for_each base_hp (fun '(param, value) new_hp =>
    scale ← getitem rand_scales param;
    low ← one_over scale;
    u ← uniform draws low scale;
    ret (dict_set new_hp param (u * value)%Q)) new_hp.

Definition new_worker (rand_scales : dict Q) (config : Config.t) : M Worker.t :=
  let new_config := dc config in
  hp ← randomize rand_scales (Config.hyperparameters config)
                 (Config.hyperparameters new_config);
  ret (Worker.init (Config.with_hyperparameters new_config hp)).

Definition init (population_size generations : nat) (rand_scales : dict Q)
    (config : Config.t) (explore : Q * Q) (rank : string) : M t :=
  population ← for_each (range population_size) (fun _ population =>
                 w ← new_worker rand_scales config;
                 ret (population ++ [w])) [];
  ret {| pop_size := population_size; generations := generations;
         generation := 0; rank := rank; explore := explore;
         config := config; losses := []; scores := [];
         population := population |}.

(** *** [run_generation] *)
Definition run_generation (self : t) : M t :=
  let self := with_losses self (losses self ++ [[]]) in
  let self := with_scores self (scores self ++ [[]]) in
  self ← for_each (imap pair (population self)) (fun '(i, worker) self =>
            let '(worker, (loss, score)) := Worker.run worker in
            let self := with_population self (<[i := worker]> (population self)) in
            ls ← append_to_last (losses self) loss;
            let self := with_losses self ls in
            ss ← append_to_last (scores self) score;
            ret (with_scores self ss)) self;
  ret (with_generation self (generation self + 1)).

(** *** [ranker] *)
Definition ranker (self : t) : M (list nat) :=
  scores ← last_item (scores self);
  let scores := if decide (rank self = "high")
                then map (fun s => s * -1)%Q scores
                else scores in
  ret (sorted (fun k => default 0%Q (scores !! k)) (range (length scores))).

(** *** [exploit_explore] *)

(** [int(np.ceil(0.2 * pop_size))], on the exact product.  (In binary64
    the product is rounded to the nearest double, which is the exact fifth
    when [pop_size] is a multiple of five: the ceiling is the same for every
    size a population can have.) *)
Definition num_of (pop_size : nat) : nat :=
  Z.to_nat (Qceiling (0.2 * inject_Z (Z.of_nat pop_size))).

(** The loop that multiplies every value of the dict by [factor]. *)
Definition perturb (new_hyperparameters : dict Q) (factor : Q) : dict Q :=
  foldl (fun hp '(param, value) => dict_set hp param (value * factor)%Q)
        new_hyperparameters new_hyperparameters.

(** [ranks[-num:]] *)
Definition last_slice {A} (num : nat) (ranks : list A) : list A :=
  if decide (num = 0) then ranks else drop (length ranks - num) ranks.

(** The body of the loop, for one [idx]. *)
Definition exploit_explore_pair (best worst : list nat) (idx : nat)
    (self : t) : M t :=
  w ← subscript worst idx;
  target ← subscript (population self) w;
  b ← subscript best idx;
  source ← subscript (population self) b;
  let target := Worker.with_model target
                  (set_weights (Worker.model target)
                               (get_weights (Worker.model source))) in
  let self := with_population self (<[w := target]> (population self)) in
  b ← subscript best idx;
  source ← subscript (population self) b;
  let new_hyperparameters := dc (Config.hyperparameters (Worker.config source)) in
  u ← uniform draws 0 1;
  let factor := if Qlt_bool u 0.5 then (explore self).1 else (explore self).2 in
  let new_hyperparameters := perturb new_hyperparameters factor in
  w ← subscript worst idx;
  target ← subscript (population self) w;
  let target := Worker.with_model target
                  (set_hyperparameters (Worker.model target)
                                       new_hyperparameters) in
  ret (with_population self (<[w := target]> (population self))).

Definition exploit_explore (self : t) : M t :=
  ranks ← ranker self;
  let num := num_of (pop_size self) in
  let best := take num ranks in
  let worst := last_slice num ranks in
  for_each (range num) (exploit_explore_pair best worst) self.

(** *** [run]: the timing and the printed report leave no trace in the
    object; [np.max] of the last scores is evaluated for the report. *)
Definition run (self : t) : M t :=
  for_each (range (generations self)) (fun i self =>
    self ← run_generation self;
    self ← exploit_explore self;
    last_scores ← last_item (scores self);
    _ ← np_max last_scores;
    ret self) self.
End PBTTrainer.
End PBTTrainer.

(** * The vocabulary of the properties *)



Section Vocabulary.
Context `{Collaborators}.
Variable draws : nat -> Q.
Import PBTTrainer.

(** Everything in the object but the population and the two histories. *)
Definition settings (self : t) : nat * nat * string * (Q * Q) * Config.t :=
  (pop_size self, generations self, rank self, explore self, config self).

Definition configs (self : t) : list Config.t :=
  Worker.config <$> population self.

(** The score the ranking reads for member [k]. *)
Definition score_of (sc : list Q) (k : nat) : Q := default 0%Q (sc !! k).

(** The sort key of [ranker]. *)
Definition rank_key (self : t) (sc : list Q) (k : nat) : Q :=
  if decide (rank self = "high") then (score_of sc k * -1)%Q else score_of sc k.

(** A state in which [exploit_explore] finds what it reads: the population
    has [pop_size] members and the last scores are theirs. *)
Definition ranked (self : t) (sc : list Q) : Prop :=
  length (population self) = pop_size self /\
  last (scores self) = Some sc /\
  length sc = pop_size self.

(** The ranking of the last scores. *)
Definition ranking (self : t) (sc : list Q) : list nat :=
  sorted (rank_key self sc) (range (length sc)).

(** The factor chosen by the coin flip on the unit draw [r]:
    [np.random.uniform()] is [uniform(0, 1)]. *)
Definition coin (explore : Q * Q) (r : Q) : Q :=
  if Qlt_bool (0 + (1 - 0) * r) 0.5 then explore.1 else explore.2.

(** The worker that one pair leaves at the place of [target]: the weights
    of [source] are set, then the perturbed copy of the hyperparameters in
    the config of [source]. *)
Definition exploited (explore : Q * Q) (source target : Worker.t) (r : Q)
  : Worker.t :=
  Worker.with_model target
    (set_hyperparameters
       (set_weights (Worker.model target) (get_weights (Worker.model source)))
       (perturb (Config.hyperparameters (Worker.config source))
                (coin explore r))).

(** What a step of the scheduler leaves alone. *)
Definition frame (self self' : t) : Prop :=
  settings self' = settings self /\
  generation self' = generation self /\
  scores self' = scores self /\
  losses self' = losses self /\
  configs self' = configs self.

(** The value [__init__] gives a hyperparameter of base value [value] and
    scale [scale] on the unit draw [r]. *)
Definition initial_value (scale value r : Q) : Q :=
  ((1 / scale + (scale - 1 / scale) * r) * value)%Q.

(** A scale that [__init__] can use: present and not zero. *)
Definition usable (rand_scales : dict Q) (param : string) : Prop :=
  exists scale, dict_get rand_scales param = Some scale /\ ~ (scale == 0)%Q.

(** The hyperparameters of a new worker when the stream stands at [pos]. *)
Fixpoint randomized (rand_scales base_hp : dict Q) (pos : nat) : dict Q :=
  match base_hp with
  | [] => []
  | (param, value) :: base_hp' =>
      (param, initial_value (default 0%Q (dict_get rand_scales param)) value
                            (draws pos))
      :: randomized rand_scales base_hp' (S pos)
  end.

(** The workers [__init__] builds when every scale is usable. *)
Definition initial_worker (rand_scales : dict Q) (config : Config.t)
    (pos : nat) (i : nat) : Worker.t :=
  Worker.init
    (Config.with_hyperparameters config
       (randomized rand_scales (Config.hyperparameters config)
          (pos + i * length (Config.hyperparameters config)))).

(** Every worker of a new population carries the [trainer] and the
    [evaluator] entries of the base config. *)
Definition static_entries (config : Config.t) (w : Worker.t) : Prop :=
  Config.trainer (Worker.config w) = Config.trainer config /\
  Config.evaluator (Worker.config w) = Config.evaluator config.

(** The rows a run has added to a history: [count] of them, one value per
    member each. *)
Definition grown {A} (self : t) (before after : list (list A)) (count : nat)
  : Prop :=
  exists rows, after = before ++ rows /\ length rows = count /\
               Forall (fun row => length row = length (population self)) rows.

Definition run_invariant (self : t) (g : nat) (s : t) : Prop :=
  settings s = settings self /\ configs s = configs self /\
  generation s = generation self + g /\
  grown self (scores self) (scores s) g /\
  grown self (losses self) (losses s) g.


(** A construction that fails with an error of its own making, not with a
    lookup failure raised by a subscript. *)
Definition configuration_error {A} (r : result A) : Prop :=
  exists e, r = inl e /\ ~ raw_lookup_failure e.

(** The operations of the scheduler after its construction. *)
Inductive operation : Type :=
| RunGeneration
| Ranker
| ExploitExplore
| Run.

Definition perform (draws : nat -> Q) (op : operation) (self : t) : M t :=
  match op with
  | RunGeneration => run_generation self
  | Ranker => _ ← ranker self; ret self
  | ExploitExplore => exploit_explore draws self
  | Run => run draws self
  end.
End Vocabulary.

(** ** A population to run the scheduler on

    The model is a pair of a weight and the hyperparameters it was last
    given; training adds the keyword argument to the weight and evaluation
    scores the weight. *)
Module Fixture.
Record toy : Type := { weights : Z; hp : dict Q }.

#[export] Instance toy_collaborators : Collaborators := {|
  Model := toy;
  Weights := Z;
  Kwargs := Z;
  Losses := list Q;
  model_class := fun h => {| weights := 0; hp := h |};
  trainer_fn := fun m k =>
    ({| weights := weights m + k; hp := hp m |}, [inject_Z (weights m)]);
  evaluator_fn := fun m _ => (m, inject_Z (weights m));
  get_weights := weights;
  set_weights := fun m w => {| weights := w; hp := hp m |};
  set_hyperparameters := fun m h => {| weights := weights m; hp := h |}
|}.

Definition base : Config.t :=
  {| Config.generation := 0;
     Config.hyperparameters := [("lr"%string, 2%Q); ("dropout"%string, 0.5%Q)];
     Config.trainer := 0%Z;
     Config.evaluator := 0%Z |}.

Definition scales : dict Q := [("dropout"%string, 4%Q); ("lr"%string, 2%Q)].

(** A member of weight [w] whose only hyperparameter is [lr]. *)
Definition member (w : Z) (lr : Q) : Worker.t :=
  {| Worker.model := {| weights := w; hp := [("lr"%string, lr)] |};
     Worker.config := Config.with_hyperparameters base [("lr"%string, lr)];
     Worker.losses := None;
     Worker.score := None |}.

(** Five members that score 1, 5, 3, 2 and 4. *)
Definition five : PBTTrainer.t :=
  {| PBTTrainer.pop_size := 5; PBTTrainer.generations := 3;
     PBTTrainer.generation := 0; PBTTrainer.rank := "high";
     PBTTrainer.explore := (1.2, 0.8)%Q; PBTTrainer.config := base;
     PBTTrainer.losses := []; PBTTrainer.scores := [];
     PBTTrainer.population :=
       [member 1 1; member 5 2; member 3 3; member 2 4; member 4 5] |}.

(** The five members after their first generation, for a given rank. *)
Definition five_ranked (rank : string) : PBTTrainer.t :=
  {| PBTTrainer.pop_size := 5; PBTTrainer.generations := 3;
     PBTTrainer.generation := 1; PBTTrainer.rank := rank;
     PBTTrainer.explore := (1.2, 0.8)%Q; PBTTrainer.config := base;
     PBTTrainer.losses := [[[1%Q]; [5%Q]; [3%Q]; [2%Q]; [4%Q]]];
     PBTTrainer.scores := [[1%Q; 5%Q; 3%Q; 2%Q; 4%Q]];
     PBTTrainer.population :=
       (fun w => (Worker.run w).1) <$> PBTTrainer.population five |}.

(** With the rank 'high', the default of the constructor. *)
Definition five_scored : PBTTrainer.t := five_ranked "high".

(** A stream of draws that always makes the coin fall on the first factor,
    and one whose first draw is the lowest. *)
Definition quarter : nat -> Q := fun _ => (1 # 4)%Q.

(** The five members after a generation and its [exploit_explore]. *)
Definition five_explored : PBTTrainer.t :=
  Eval vm_compute in
    match (PBTTrainer.run_generation five ≫= PBTTrainer.exploit_explore quarter) 0 with
    | inr (self, _) => self
    | inl _ => five
    end.

(** The scheduler constructed from the base config of the fixture. *)
Definition constructed : PBTTrainer.t :=
  Eval vm_compute in
    match PBTTrainer.init quarter 5 3 scales base (1.2, 0.8)%Q "high" 0 with
    | inr (self, _) => self
    | inl _ => five
    end.

(** What four operations in a row leave of it. *)
Definition operated : PBTTrainer.t :=
  Eval vm_compute in
    match for_each [RunGeneration; Ranker; ExploitExplore; Run]
                   (perform quarter) constructed 10 with
    | inr (self, _) => self
    | inl _ => five
    end.
End Fixture.

(** * The report of [run]

    [run] times every generation and prints four numbers after it.  The
    clock is an input, as the random stream is: [clock i] is the time
    [toc - tic] that generation [i] took; the printed lines are returned as
    a list. *)

(** A Python int as a number. *)
Definition of_int (n : nat) : Q := inject_Z (Z.of_nat n).

(** The four values of [metrics], in the order they are formatted. *)
Record metrics : Type := {
  shown_generation : nat;       (* i+1 *)
  shown_score : Q;              (* np.max(self.scores[-1]) *)
  shown_speed : Q;              (* speed *)
  shown_remaining : Q           (* speed*self.generations-speed*(i+1) *)
}.


(** The outcome of a computation, seen through [proj]. *)
Definition projected {A B} (proj : B -> A) (r : result (B * nat)) : result (A * nat) :=
  match r with
  | inl e => inl e
  | inr (b, pos) => inr (proj b, pos)
  end.

Section Report.
Context `{Collaborators}.
Variable draws : nat -> Q.
Variable clock : nat -> Q.
Import PBTTrainer.

(** What [exploit_explore] could change in a worker besides its model. *)
Definition attributes (w : Worker.t) : Config.t * option Losses * option Q :=
  (Worker.config w, Worker.losses w, Worker.score w).

(** The body of the loop of [run], the loop state being the object, the
    local [speed] and the lines printed so far. *)
Definition run_reported_step (i : nat) (st : t * Q * list metrics)
  : M (t * Q * list metrics) :=
  let '(self, speed, printed) := st in
  self ← run_generation self;
  self ← exploit_explore draws self;
  let speed := (speed * of_int i / of_int (generations self)
                + clock i * (1 - of_int i / of_int (generations self)))%Q in
  last_scores ← last_item (scores self);
  best ← np_max last_scores;
  ret (self, speed,
       printed ++ [ {| shown_generation := i + 1;
                       shown_score := best;
                       shown_speed := speed;
                       shown_remaining :=
                         (speed * of_int (generations self)
                          - speed * of_int (i + 1))%Q |} ]).

(** [run], with what it prints. *)
Definition run_reported (self : t) : M (t * list metrics) :=
  st ← for_each (range (generations self)) run_reported_step (self, 0%Q, []);
  ret (st.1.1, st.2).
End Report.

(** Clocks and populations for the fixture. *)
Module ReportFixture.

(** A scheduler of one member, scored once. *)
Definition alone : PBTTrainer.t :=
  {| PBTTrainer.pop_size := 1; PBTTrainer.generations := 2;
     PBTTrainer.generation := 1; PBTTrainer.rank := "high";
     PBTTrainer.explore := (1.2, 0.8)%Q; PBTTrainer.config := Fixture.base;
     PBTTrainer.losses := [[[7%Q]]];
     PBTTrainer.scores := [[7%Q]];
     PBTTrainer.population := [Fixture.member 7 3] |}.

(** Scales with a zero for the first hyperparameter of the base config. *)
Definition zero_scales : dict Q := [("lr"%string, 0%Q); ("dropout"%string, 4%Q)].

End ReportFixture.

(** * Properties *)

(** ** Rational comparisons *)

Lemma Qlt_bool_true (x y : Q) : Qlt_bool x y = true <-> (x < y)%Q.
Proof.
  unfold Qlt_bool. rewrite Qlt_alt.
  destruct (x ?= y)%Q; split; intros E; congruence.
Qed.

Lemma Qlt_bool_false (x y : Q) : Qlt_bool x y = false <-> (y <= x)%Q.
Proof.
  rewrite <- not_true_iff_false, Qlt_bool_true.
  split; [apply Qnot_lt_le | apply Qle_not_lt].
Qed.

(** ** The stable sort *)

Section SortedFacts.
Variable key : nat -> Q.

Lemma insert_by_perm x l : insert_by key x l ≡ₚ x :: l.
Proof.
  induction l as [|y l IH]; simpl; [done|].
  destruct (Qlt_bool (key y) (key x)); [|done].
  rewrite IH. apply perm_swap.
Qed.

Lemma sorted_perm xs : sorted key xs ≡ₚ xs.
Proof.
  induction xs as [|x xs IH]; simpl; [done|].
  rewrite insert_by_perm. by rewrite IH.
Qed.


End SortedFacts.



(** ** Sequencing *)

Lemma bind_inr {A B} (m : M A) (k : A -> M B) pos a pos' :
  m pos = inr (a, pos') -> (m ≫= k) pos = k a pos'.
Proof. intros E. unfold mbind, M_bind, bind. by rewrite E. Qed.

Lemma bind_inl {A B} (m : M A) (k : A -> M B) pos e :
  m pos = inl e -> (m ≫= k) pos = inl e.
Proof. intros E. unfold mbind, M_bind, bind. by rewrite E. Qed.

Lemma bind_inv {A B} (m : M A) (k : A -> M B) pos b pos2 :
  (m ≫= k) pos = inr (b, pos2) ->
  exists a pos1, m pos = inr (a, pos1) /\ k a pos1 = inr (b, pos2).
Proof.
  unfold mbind, M_bind, bind. destruct (m pos) as [e|[a pos1]]; [done|]. eauto.
Qed.

Lemma subscript_inv {A} (l : list A) i pos a pos' :
  subscript l i pos = inr (a, pos') -> l !! i = Some a /\ pos' = pos.
Proof.
  unfold subscript. destruct (l !! i); unfold ret, raise; intros E; by simplify_eq.
Qed.

Lemma subscript_Some {A} (l : list A) i pos a :
  l !! i = Some a -> subscript l i pos = inr (a, pos).
Proof. intros E. unfold subscript. by rewrite E. Qed.

Lemma for_each_app {X A} (xs ys : list X) (body : X -> A -> M A) a pos :
  for_each (xs ++ ys) body a pos =
  (for_each xs body a ≫= for_each ys body) pos.
Proof.
  revert a pos. induction xs as [|x xs IH]; intros a pos; simpl; [done|].
  unfold mbind, M_bind, bind. destruct (body x a pos) as [e|[a' pos']]; [done|].
  apply IH.
Qed.

(** A loop invariant indexed by the number of completed iterations: when
    every iteration returns and re-establishes it, so does the loop. *)
Lemma for_each_progress {X A} (P : nat -> A -> nat -> Prop) (xs : list X)
    (body : X -> A -> M A) a pos :
  P 0 a pos ->
  (forall k x a pos, xs !! k = Some x -> P k a pos ->
     exists a' pos', body x a pos = inr (a', pos') /\ P (S k) a' pos') ->
  exists a' pos', for_each xs body a pos = inr (a', pos') /\
                  P (length xs) a' pos'.
Proof.
  revert P a pos. induction xs as [|x xs IH]; intros P a pos H0 Hstep; simpl.
  { eauto. }
  destruct (Hstep 0 x a pos eq_refl H0) as (a1 & pos1 & E1 & H1).
  erewrite bind_inr by exact E1.
  apply (IH (fun k => P (S k))); [done|].
  intros k y b q Hk Hb. by apply Hstep.
Qed.

(** The same invariant for a loop that is known to have returned. *)
Lemma for_each_inv {X A} (P : nat -> A -> nat -> Prop) (xs : list X)
    (body : X -> A -> M A) a pos a' pos' :
  P 0 a pos ->
  (forall k x a pos a' pos', xs !! k = Some x -> P k a pos ->
     body x a pos = inr (a', pos') -> P (S k) a' pos') ->
  for_each xs body a pos = inr (a', pos') ->
  P (length xs) a' pos'.
Proof.
  revert P a pos. induction xs as [|x xs IH]; intros P a pos H0 Hstep E; simpl in *.
  { unfold ret in E. by simplify_eq. }
  apply bind_inv in E as (a1 & pos1 & E1 & E).
  apply (IH (fun k => P (S k)) a1 pos1); [|by eauto|done].
  by apply (Hstep 0 x a pos).
Qed.

(** ** Dictionaries *)

Lemma dict_set_fresh_prefix {V} (d1 d2 : dict V) k v x :
  k ∉ keys d1 ->
  dict_set (d1 ++ (k, v) :: d2) k x = d1 ++ (k, x) :: d2.
Proof.
  unfold keys. induction d1 as [|[k' v'] d1 IH]; intros Hk; simpl.
  - by rewrite decide_True.
  - rewrite fmap_cons, not_elem_of_cons in Hk. destruct Hk as [Hne Hk].
    rewrite decide_False by done. by rewrite IH.
Qed.



Lemma append_to_last_snoc {A} (ll : list (list A)) (row : list A) x pos :
  append_to_last (ll ++ [row]) x pos = inr (ll ++ [row ++ [x]], pos).
Proof.
  unfold append_to_last, last_item.
  rewrite last_snoc. simpl. unfold mbind, M_bind, bind, ret. do 2 f_equal.
  rewrite length_app. simpl. replace (pred (length ll + 1)) with (length ll + 0) by lia.
  by rewrite insert_app_r.
Qed.

(** ** Worker *)

Section WorkerFacts.
Context `{Collaborators}.

Lemma Worker_run_config (w : Worker.t) :
  Worker.config (Worker.run w).1 = Worker.config w.
Proof.
  unfold Worker.run, Worker.train, Worker.evaluate.
  destruct (trainer_fn _ _) as [m1 l]. simpl.
  by destruct (evaluator_fn _ _) as [m2 s].
Qed.
End WorkerFacts.

(** ** PBTTrainer *)

Section PBTTrainerFacts.
Context `{Collaborators}.
Variable draws : nat -> Q.

Import PBTTrainer.

(** *** ranker *)

Lemma insert_by_ext (key key' : nat -> Q) x l :
  key x = key' x -> (forall y, y ∈ l -> key y = key' y) ->
  insert_by key x l = insert_by key' x l.
Proof.
  intros Hx. induction l as [|y l IH]; intros Hl; simpl; [done|].
  rewrite Hx, (Hl y) by left.
  destruct (Qlt_bool _ _); [|done].
  f_equal. apply IH. intros; apply Hl; by right.
Qed.

Lemma sorted_ext (key key' : nat -> Q) xs :
  (forall k, k ∈ xs -> key k = key' k) -> sorted key xs = sorted key' xs.
Proof.
  induction xs as [|x xs IH]; intros Hk; simpl; [done|].
  rewrite IH by (intros; apply Hk; by right).
  apply insert_by_ext; [apply Hk; left|].
  intros y Hy. apply Hk. right. by rewrite <- (sorted_perm key' xs).
Qed.

Lemma ranker_eq self sc pos :
  last (scores self) = Some sc ->
  ranker self pos = inr (sorted (rank_key self sc) (range (length sc)), pos).
Proof.
  intros Hsc. unfold ranker, last_item. rewrite Hsc. simpl.
  unfold mbind, M_bind, bind, ret. do 2 f_equal.
  unfold rank_key, score_of. destruct (decide (rank self = "high")); [|done].
  rewrite length_map. apply sorted_ext. intros k Hk.
  apply list_elem_of_In, in_seq in Hk.
  rewrite list_lookup_fmap.
  destruct (lookup_lt_is_Some_2 sc k) as [s ->]; [lia|done].
Qed.


(** *** run_generation *)

Lemma run_generation_spec self pos :
  exists self' sc ls,
    run_generation self pos = inr (self', pos) /\
    settings self' = settings self /\
    generation self' = generation self + 1 /\
    configs self' = configs self /\
    scores self' = scores self ++ [sc] /\
    length sc = length (population self) /\
    losses self' = losses self ++ [ls] /\
    length ls = length (population self).
Proof.
  unfold run_generation.
  set (self0 := with_scores _ _).
  destruct (for_each_progress
    (fun k s p => p = pos /\ settings s = settings self /\
       generation s = generation self /\ configs s = configs self /\
       exists sc ls, scores s = scores self ++ [sc] /\ length sc = k /\
                     losses s = losses self ++ [ls] /\ length ls = k)
    (imap pair (population self0))
    (fun '(i, worker) self =>
       let '(worker, (loss, score)) := Worker.run worker in
       let self := with_population self (<[i := worker]> (population self)) in
       ls ← append_to_last (losses self) loss;
       let self := with_losses self ls in
       ss ← append_to_last (scores self) score;
       ret (with_scores self ss)) self0 pos)
    as (s' & p' & E & -> & Hset & Hgen & Hcfg & sc & ls & Hsc & Hlsc & Hls & Hlls).
  - repeat split; try done. by exists [], [].
  - intros k [i worker] s p Hk (-> & Hset & Hgen & Hcfg & sc & ls & Hsc & Hlsc & Hls & Hlls).
    rewrite list_lookup_imap in Hk. simpl in Hk.
    destruct (population self !! k) as [w0|] eqn:Hw0; simplify_eq/=.
    pose proof (Worker_run_config worker) as Hrc.
    destruct (Worker.run worker) as [worker' [loss score]]. simpl in *.
    rewrite Hls. erewrite bind_inr by apply append_to_last_snoc. simpl.
    rewrite Hsc. erewrite bind_inr by apply append_to_last_snoc.
    eexists _, _. split; [done|]. simpl.
    split_and!; try done.
    + unfold settings. simpl. congruence.
    + unfold configs in *. simpl. rewrite list_fmap_insert, Hrc, Hcfg.
      apply list_insert_id. rewrite list_lookup_fmap. by rewrite Hw0.
    + exists (sc ++ [score]), (ls ++ [loss]).
      split_and!; rewrite ?length_app; simpl; try done; lia.
  - erewrite bind_inr by exact E.
    rewrite length_imap in Hlsc, Hlls.
    exists (with_generation s' (generation s' + 1)), sc, ls.
    repeat split; try done. simpl. by rewrite Hgen.
Qed.

(** *** exploit_explore *)

Lemma frame_refl self : frame self self.
Proof. by repeat split. Qed.

Lemma frame_trans s1 s2 s3 : frame s1 s2 -> frame s2 s3 -> frame s1 s3.
Proof. unfold frame. intros (?&?&?&?&?) (?&?&?&?&?). split_and!; congruence. Qed.

Lemma exploit_explore_pair_frame best worst idx self pos self' pos' :
  exploit_explore_pair draws best worst idx self pos = inr (self', pos') ->
  frame self self'.
Proof.
  unfold exploit_explore_pair. intros E.
  apply bind_inv in E as (w & p & E1 & E). apply subscript_inv in E1 as [Hw ->].
  apply bind_inv in E as (target & p & E1 & E). apply subscript_inv in E1 as [Ht ->].
  apply bind_inv in E as (b & p & E1 & E). apply subscript_inv in E1 as [Hb ->].
  apply bind_inv in E as (source & p & E1 & E). apply subscript_inv in E1 as [Hs ->].
  cbv beta zeta in E.
  apply bind_inv in E as (b' & p & E1 & E). apply subscript_inv in E1 as [Hb' ->].
  apply bind_inv in E as (source' & p & E1 & E). apply subscript_inv in E1 as [Hs' ->].
  apply bind_inv in E as (u & p & E1 & E). unfold uniform in E1. simplify_eq.
  apply bind_inv in E as (w' & p & E1 & E). apply subscript_inv in E1 as [Hw' ->].
  apply bind_inv in E as (target' & p & E1 & E). apply subscript_inv in E1 as [Ht' ->].
  unfold ret in E. simplify_eq. simpl in *.
  split_and!; try done.
  unfold configs. simpl. rewrite !list_fmap_insert. simpl.
  assert (Hc : Worker.config target' = Worker.config target).
  { rewrite list_lookup_insert_eq in Ht' by (by eapply lookup_lt_Some).
    by simplify_eq. }
  rewrite Hc, list_insert_insert_eq.
  apply list_insert_id. by rewrite list_lookup_fmap, Ht.
Qed.

Lemma exploit_explore_pair_eq best worst idx self pos b w source target :
  best !! idx = Some b -> worst !! idx = Some w ->
  population self !! b = Some source ->
  population self !! w = Some target ->
  exploit_explore_pair draws best worst idx self pos =
  inr (with_population self
         (<[w := exploited (explore self) source target (draws pos)]>
            (population self)), S pos).
Proof.
  intros Hb Hw Hs Ht. unfold exploit_explore_pair.
  pose proof (lookup_lt_Some _ _ _ Ht) as Hlt.
  erewrite bind_inr by (by apply subscript_Some).
  erewrite bind_inr by (by apply subscript_Some).
  erewrite bind_inr by (by apply subscript_Some).
  erewrite bind_inr by (by apply subscript_Some).
  cbv beta zeta. simpl population.
  erewrite bind_inr by (by apply subscript_Some).
  set (target1 := Worker.with_model target _).
  assert (exists source1, <[w := target1]> (population self) !! b = Some source1 /\
            Worker.config source1 = Worker.config source) as (source1 & Hs1 & Hc).
  { destruct (decide (w = b)) as [->|Hne].
    - exists target1. rewrite list_lookup_insert_eq by done. by simplify_eq.
    - exists source. by rewrite list_lookup_insert_ne. }
  erewrite bind_inr by (apply subscript_Some, Hs1).
  erewrite bind_inr by reflexivity.
  erewrite bind_inr by (by apply subscript_Some).
  erewrite bind_inr by (apply subscript_Some, list_lookup_insert_eq; done).
  unfold ret. simpl. rewrite list_insert_insert_eq. do 3 f_equal.
  unfold exploited, coin, dc. by rewrite Hc.
Qed.

Lemma range_lookup n k x : range n !! k = Some x -> x = k /\ k < n.
Proof. unfold range. intros E. apply lookup_seq in E. lia. Qed.

(** The loop of [exploit_explore], for a pairing whose [worst] places are
    distinct and are not read as a [best] place by a later pair. *)
Lemma pairs_loop self pos best worst num :
  NoDup worst ->
  (forall i, i < num -> exists b w, best !! i = Some b /\ worst !! i = Some w /\
     b < length (population self) /\ w < length (population self)) ->
  (forall i j x, i < j -> j < num -> worst !! i = Some x -> best !! j <> Some x) ->
  exists self',
    for_each (range num) (exploit_explore_pair draws best worst) self pos
      = inr (self', pos + num) /\
    frame self self' /\
    (forall j, (forall i, i < num -> worst !! i <> Some j) ->
       population self' !! j = population self !! j) /\
    (forall idx b w source target,
       idx < num -> best !! idx = Some b -> worst !! idx = Some w ->
       population self !! b = Some source ->
       population self !! w = Some target ->
       population self' !! w =
         Some (exploited (explore self) source target (draws (pos + idx)))).
Proof.
  intros Hnd Hin Hdisj.
  destruct (for_each_progress
    (fun k s p =>
       k <= num -> p = pos + k /\ frame self s /\
       (forall j, (forall i, i < k -> worst !! i <> Some j) ->
          population s !! j = population self !! j) /\
       (forall idx b w source target,
          idx < k -> best !! idx = Some b -> worst !! idx = Some w ->
          population self !! b = Some source ->
          population self !! w = Some target ->
          population s !! w =
            Some (exploited (explore self) source target (draws (pos + idx)))))
    (range num) (exploit_explore_pair draws best worst) self pos)
    as (s' & p' & E & HP).
  - intros _. split_and!; [lia | apply frame_refl | done | intros; lia].
  - intros k x s p Hk HP. apply range_lookup in Hk as [-> Hk].
    destruct HP as (-> & Hfr & Hout & Hdone); [lia|].
    destruct (Hin k Hk) as (b & w & Hb & Hw & Hbl & Hwl).
    destruct (lookup_lt_is_Some_2 _ _ Hbl) as [source Hs].
    destruct (lookup_lt_is_Some_2 _ _ Hwl) as [target Ht].
    assert (Hearlier : forall i, i < k -> worst !! i <> Some w).
    { intros i Hi Hwi. pose proof (NoDup_lookup _ _ _ _ Hnd Hwi Hw). lia. }
    eexists _, _. split.
    { eapply exploit_explore_pair_eq; [exact Hb | exact Hw | |].
      - rewrite Hout; [exact Hs|]. intros i Hi Hwi. by apply (Hdisj i k b).
      - by rewrite Hout. }
    intros _. destruct Hfr as (Hset & Hgen & Hsc & Hls & Hcfg).
    assert (Hlen : length (population s) = length (population self)).
    { unfold configs in Hcfg.
      by rewrite <- (length_fmap Worker.config), Hcfg, length_fmap. }
    assert (Hex : explore s = explore self).
    { unfold settings in Hset. by simplify_eq. }
    split_and!.
    + lia.
    + split_and!; try done. unfold configs in Hcfg |- *. simpl.
      rewrite list_fmap_insert. simpl. rewrite Hcfg.
      apply list_insert_id. by rewrite list_lookup_fmap, Ht.
    + intros j Hj. simpl. rewrite list_lookup_insert_ne.
      * apply Hout. intros i Hi. apply Hj. lia.
      * intros ->. apply (Hj k); [lia|done].
    + intros idx b' w' source' target' Hidx Hb' Hw' Hs' Ht'. simpl.
      destruct (decide (idx = k)) as [->|Hne].
      * simplify_eq. rewrite list_lookup_insert_eq by lia. by rewrite Hex.
      * rewrite list_lookup_insert_ne.
        -- eapply Hdone; eauto. lia.
        -- intros ->. apply (Hearlier idx); [lia|done].
  - unfold range in HP. rewrite length_seq in HP.
    destruct HP as (-> & Hfr & Hout & Hdone); [lia|].
    exists s'. split_and!; done.
Qed.

(** [num_of] is the ceiling of a fifth of the population size. *)
Lemma num_of_eq n : num_of n = (n + 4) / 5.
Proof.
  unfold num_of, Qceiling.
  assert (E : Qfloor (- (0.2 * inject_Z (Z.of_nat n))) =
              ((- (2 * Z.of_nat n)) / 10)%Z) by reflexivity.
  rewrite E.
  pose proof (Z.div_mod (- (2 * Z.of_nat n)) 10 ltac:(lia)).
  pose proof (Z.mod_pos_bound (- (2 * Z.of_nat n)) 10 ltac:(lia)).
  pose proof (Nat.div_mod_eq (n + 4) 5).
  pose proof (Nat.mod_upper_bound (n + 4) 5 ltac:(lia)).
  lia.
Qed.

Lemma last_slice_lookup {A} num (ranks : list A) i :
  num <= length ranks -> i < num ->
  last_slice num ranks !! i = ranks !! (length ranks - num + i).
Proof.
  intros Hn Hi. unfold last_slice.
  rewrite decide_False by lia. apply lookup_drop.
Qed.

Lemma last_slice_NoDup {A} num (ranks : list A) :
  NoDup ranks -> NoDup (last_slice num ranks).
Proof.
  intros Hnd. unfold last_slice. destruct (decide (num = 0)); [done|].
  eapply sublist_NoDup; [done | apply sublist_drop].
Qed.

Lemma ranking_length self sc : length (ranking self sc) = length sc.
Proof.
  unfold ranking. rewrite (Permutation_length (sorted_perm _ _)).
  unfold range. apply length_seq.
Qed.

Lemma ranking_NoDup self sc : NoDup (ranking self sc).
Proof. unfold ranking. rewrite sorted_perm. apply NoDup_seq. Qed.

Lemma ranking_lt self sc i x :
  ranking self sc !! i = Some x -> x < length sc.
Proof.
  intros E. apply list_elem_of_lookup_2 in E. unfold ranking in E.
  rewrite sorted_perm in E. apply elem_of_seq in E. lia.
Qed.

Lemma num_of_le n : num_of n <= n.
Proof.
  rewrite num_of_eq. pose proof (Nat.div_mod_eq (n + 4) 5).
  pose proof (Nat.mod_upper_bound (n + 4) 5 ltac:(lia)). lia.
Qed.

Lemma num_of_twice n : n <> 1 -> 2 * num_of n <= n.
Proof.
  rewrite num_of_eq. pose proof (Nat.div_mod_eq (n + 4) 5).
  pose proof (Nat.mod_upper_bound (n + 4) 5 ltac:(lia)). lia.
Qed.

Lemma num_of_pos n : 1 <= n -> 1 <= num_of n.
Proof.
  rewrite num_of_eq. pose proof (Nat.div_mod_eq (n + 4) 5).
  pose proof (Nat.mod_upper_bound (n + 4) 5 ltac:(lia)). lia.
Qed.

Lemma exploit_explore_spec self sc pos :
  ranked self sc ->
  let ranks := ranking self sc in
  let n := pop_size self in
  let num := num_of n in
  exists self',
    exploit_explore draws self pos = inr (self', pos + num) /\
    frame self self' /\
    (forall j, (forall i, i < num -> ranks !! (n - num + i) <> Some j) ->
       population self' !! j = population self !! j) /\
    (forall idx, idx < num ->
       exists b w source target,
         ranks !! idx = Some b /\ ranks !! (n - num + idx) = Some w /\
         population self !! b = Some source /\
         population self !! w = Some target /\
         population self' !! w =
           Some (exploited (explore self) source target (draws (pos + idx)))).
Proof.
  intros (Hpop & Hsc & Hlen) ranks n num.
  pose proof (ranking_length self sc) as Hrl. fold ranks in Hrl.
  pose proof (num_of_le n) as Hle. fold num in Hle.
  assert (Hbest : forall i, i < num -> take num ranks !! i = ranks !! i).
  { intros. by apply lookup_take_lt. }
  assert (Hworst : forall i, i < num ->
            last_slice num ranks !! i = ranks !! (n - num + i)).
  { intros i Hi. rewrite last_slice_lookup by lia. do 2 f_equal. lia. }
  assert (Hsome : forall i, i < n -> exists x, ranks !! i = Some x /\ x < n).
  { intros i Hi. destruct (lookup_lt_is_Some_2 ranks i) as [x Hx]; [lia|].
    exists x. split; [done|]. apply ranking_lt in Hx. lia. }
  destruct (pairs_loop self pos (take num ranks) (last_slice num ranks) num)
    as (self' & E & Hfr & Hout & Hdone).
  - apply last_slice_NoDup, ranking_NoDup.
  - intros i Hi. destruct (Hsome i) as (b & Hb & Hbn); [lia|].
    destruct (Hsome (n - num + i)) as (w & Hw & Hwn); [lia|].
    exists b, w. rewrite Hbest, Hworst by done. split_and!; try done; lia.
  - intros i j x Hij Hj Hw Hb.
    rewrite Hworst in Hw by lia. rewrite Hbest in Hb by done.
    pose proof (NoDup_lookup _ _ _ _ (ranking_NoDup self sc) Hw Hb) as Heq.
    destruct (decide (n = 1)) as [Hn|Hn].
    + pose proof (num_of_le 1). unfold num in Hj. rewrite Hn in Hj. lia.
    + pose proof (num_of_twice n Hn). fold num in H0. lia.
  - exists self'. split_and!.
    + unfold exploit_explore. erewrite bind_inr by (by apply ranker_eq). done.
    + done.
    + intros j Hj. apply Hout. intros i Hi. rewrite Hworst by done. by apply Hj.
    + intros idx Hidx.
      destruct (Hsome idx) as (b & Hb & Hbn); [lia|].
      destruct (Hsome (n - num + idx)) as (w & Hw & Hwn); [lia|].
      destruct (lookup_lt_is_Some_2 (population self) b) as [source Hs]; [lia|].
      destruct (lookup_lt_is_Some_2 (population self) w) as [target Ht]; [lia|].
      exists b, w, source, target. split_and!; try done.
      eapply Hdone; eauto; [by rewrite Hbest | by rewrite Hworst].
Qed.

(** Whatever the state, a call that returns leaves everything but the
    models alone. *)
Lemma exploit_explore_frame self pos self' pos' :
  exploit_explore draws self pos = inr (self', pos') -> frame self self'.
Proof.
  unfold exploit_explore. intros E.
  apply bind_inv in E as (ranks & p & _ & E).
  eapply (for_each_inv (fun _ s _ => frame self s)); [| |exact E].
  - apply frame_refl.
  - intros k x s p1 s1 p2 _ Hfr Hs.
    eapply frame_trans; [exact Hfr|]. by eapply exploit_explore_pair_frame.
Qed.

(** *** __init__ *)


Lemma randomized_keys rand_scales base_hp pos :
  keys (randomized draws rand_scales base_hp pos) = keys base_hp.
Proof.
  unfold keys. revert pos.
  induction base_hp as [|[k v] d IH]; intros pos; simpl; [done|]. by rewrite IH.
Qed.

Lemma randomize_step rand_scales param value new_hp pos scale :
  dict_get rand_scales param = Some scale -> ~ (scale == 0)%Q ->
  (scale ← getitem rand_scales param;
   low ← one_over scale;
   u ← uniform draws low scale;
   ret (dict_set new_hp param (u * value)%Q)) pos =
  inr (dict_set new_hp param (initial_value scale value (draws pos)), S pos).
Proof.
  intros Hs Hz. unfold getitem, one_over. rewrite Hs.
  erewrite bind_inr by reflexivity.
  destruct (Qeq_bool scale 0) eqn:Ez; [by apply Qeq_bool_iff in Ez|].
  reflexivity.
Qed.

Lemma randomize_eq rand_scales base_hp pos :
  dict_wf base_hp ->
  (forall param, param ∈ keys base_hp -> usable rand_scales param) ->
  randomize draws rand_scales base_hp base_hp pos =
  inr (randomized draws rand_scales base_hp pos, pos + length base_hp).
Proof.
  unfold randomize, dict_wf.
  enough (G : forall d2 d1 pos,
            NoDup (keys (d1 ++ d2)) ->
            (forall param, param ∈ keys d2 -> usable rand_scales param) ->
            for_each d2 (fun '(param, value) new_hp =>
                scale ← getitem rand_scales param;
                low ← one_over scale;
                u ← uniform draws low scale;
                ret (dict_set new_hp param (u * value)%Q)) (d1 ++ d2) pos =
            inr (d1 ++ randomized draws rand_scales d2 pos, pos + length d2)).
  { intros Hwf Hus. apply (G base_hp [] pos); done. }
  induction d2 as [|[k v] d2 IH]; intros d1 p Hnd Hus; simpl.
  { unfold ret. by rewrite Nat.add_0_r. }
  destruct (Hus k) as (scale & Hs & Hz); [unfold keys; simpl; left|].
  erewrite bind_inr by (by apply randomize_step).
  rewrite dict_set_fresh_prefix.
  - rewrite (cons_middle _ d1 d2), app_assoc in Hnd.
    rewrite (cons_middle _ d1 d2), app_assoc.
    rewrite (IH (d1 ++ [_])).
    + rewrite Hs. simpl. rewrite <- app_assoc. simpl. do 2 f_equal. lia.
    + unfold keys in *. by rewrite !fmap_app in Hnd |- *.
    + intros param Hp. apply Hus. unfold keys. simpl. by right.
  - unfold keys in *. rewrite fmap_app, fmap_cons in Hnd.
    apply NoDup_app in Hnd as (_ & Hnd & _).
    intros Hk. apply (Hnd k Hk). by left.
Qed.

Lemma init_eq population_size generations rand_scales config explore rank pos :
  dict_wf (Config.hyperparameters config) ->
  (forall param, param ∈ keys (Config.hyperparameters config) ->
     usable rand_scales param) ->
  init draws population_size generations rand_scales config explore rank pos =
  inr ({| pop_size := population_size; generations := generations;
          generation := 0; rank := rank; explore := explore;
          config := config; losses := []; scores := [];
          population := initial_worker draws rand_scales config pos
                          <$> range population_size |},
       pos + population_size * length (Config.hyperparameters config)).
Proof.
  intros Hwf Hus. unfold init.
  set (len := length (Config.hyperparameters config)).
  destruct (for_each_progress
    (fun k population p =>
       p = pos + k * len /\
       population = initial_worker draws rand_scales config pos <$> range k)
    (range population_size)
    (fun _ population =>
       w ← new_worker draws rand_scales config; ret (population ++ [w]))
    [] pos) as (population & p & E & -> & ->).
  - split; [lia | done].
  - intros k x population p _ [-> ->].
    eexists _, _. split.
    + unfold new_worker, dc.
      erewrite bind_inr by (erewrite bind_inr by (by apply randomize_eq); done).
      done.
    + split; [fold len; lia|].
      unfold range. rewrite seq_S, fmap_app. simpl. done.
  - erewrite bind_inr by exact E.
    unfold range at 2 3. rewrite length_seq. done.
Qed.

Lemma randomize_missing rand_scales pre param value post new_hp pos :
  (forall p, p ∈ keys pre -> usable rand_scales p) ->
  dict_get rand_scales param = None ->
  randomize draws rand_scales (pre ++ (param, value) :: post) new_hp pos =
  inl (KeyError param).
Proof.
  intros Hus Hnone. unfold randomize. rewrite for_each_app.
  destruct (for_each_progress (fun _ _ _ => True) pre
    (fun '(param, value) new_hp =>
       scale ← getitem rand_scales param;
       low ← one_over scale;
       u ← uniform draws low scale;
       ret (dict_set new_hp param (u * value)%Q)) new_hp pos)
    as (hp & p & E & _); [done| |].
  - intros k [k' v'] hp p Hk _.
    destruct (Hus k') as (scale & Hs & Hz).
    { unfold keys. apply list_elem_of_fmap. exists (k', v'). split; [done|].
      by eapply list_elem_of_lookup_2. }
    eexists _, _. split; [by apply randomize_step | done].
  - erewrite bind_inr by exact E. simpl.
    apply bind_inl. apply bind_inl. unfold getitem. by rewrite Hnone.
Qed.


Lemma init_static population_size generations rand_scales config explore rank
    pos self pos' :
  init draws population_size generations rand_scales config explore rank pos =
    inr (self, pos') ->
  Forall (static_entries config) (population self).
Proof.
  unfold init. intros E. apply bind_inv in E as (population & p & E & Er).
  unfold ret in Er. simplify_eq. simpl.
  eapply (for_each_inv (fun _ population _ =>
            Forall (static_entries config) population)); [| |exact E].
  - constructor.
  - intros k x pop p1 pop' p2 _ Hpop Hb.
    apply bind_inv in Hb as (w & p3 & Hw & Hr). unfold ret in Hr. simplify_eq.
    apply Forall_app. split; [done|]. constructor; [|constructor].
    unfold new_worker in Hw. apply bind_inv in Hw as (hp & p4 & _ & Hr).
    unfold ret in Hr. by simplify_eq.
Qed.

(** *** run *)

Lemma grown_0 {A} self (l : list (list A)) : grown self l l 0.
Proof. exists []. by rewrite app_nil_r. Qed.

Lemma grown_S {A} self (l l' : list (list A)) row k :
  grown self l l' k -> length row = length (population self) ->
  grown self l (l' ++ [row]) (S k).
Proof.
  intros (rows & -> & Hl & Hf) Hrow. exists (rows ++ [row]).
  rewrite app_assoc, length_app, Forall_app. simpl.
  split_and!; [done | lia | done | by constructor].
Qed.

Lemma configs_length s s' :
  configs s = configs s' -> length (population s) = length (population s').
Proof.
  unfold configs. intros E.
  by rewrite <- (length_fmap Worker.config), E, length_fmap.
Qed.

Lemma run_generation_invariant self g s s1 pos pos1 :
  run_invariant self g s ->
  run_generation s pos = inr (s1, pos1) ->
  pos1 = pos /\ run_invariant self (S g) s1 /\
  exists sc, last (scores s1) = Some sc /\
             length sc = length (population self).
Proof.
  intros (Hset & Hcfg & Hgen & Hsc & Hls) E.
  destruct (run_generation_spec s pos)
    as (s1' & sc & ls & E' & Hset' & Hgen' & Hcfg' & Hsc' & Hlsc & Hls' & Hlls).
  rewrite E in E'. simplify_eq.
  pose proof (configs_length _ _ Hcfg) as Hlen.
  split; [done|]. split.
  - split_and!; try congruence.
    + unfold settings. congruence.
    + lia.
    + rewrite Hsc'. apply grown_S; [done | congruence].
    + rewrite Hls'. apply grown_S; [done | congruence].
  - exists sc. rewrite Hsc', last_snoc. split; [done | congruence].
Qed.

Lemma frame_invariant self g s s' :
  run_invariant self g s -> frame s s' -> run_invariant self g s'.
Proof.
  intros (Hset & Hcfg & Hgen & Hsc & Hls) (Hset' & Hgen' & Hsc' & Hls' & Hcfg').
  unfold run_invariant. rewrite Hsc', Hls'. split_and!; congruence.
Qed.

Lemma run_invariant_0 self : run_invariant self 0 self.
Proof.
  unfold run_invariant. rewrite Nat.add_0_r.
  split_and!; try done; apply grown_0.
Qed.

Lemma np_max_cons x l pos :
  exists m, np_max (x :: l) pos = inr (m, pos).
Proof. by eexists. Qed.

(** A run that returns has done [generations] rounds. *)
Lemma run_inv self pos self' pos' :
  run draws self pos = inr (self', pos') ->
  run_invariant self (generations self) self'.
Proof.
  unfold run. intros E.
  replace (generations self) with (length (range (generations self)))
    by (unfold range; apply length_seq).
  eapply (for_each_inv (fun g s _ => run_invariant self g s));
    [apply run_invariant_0| |exact E]. clear E.
  intros g x s p s' p' _ Hinv E.
  apply bind_inv in E as (s1 & p1 & E1 & E).
  apply bind_inv in E as (s2 & p2 & E2 & E).
  apply bind_inv in E as (sc & p3 & _ & E).
  apply bind_inv in E as (m & p4 & _ & E). unfold ret in E. simplify_eq.
  destruct (run_generation_invariant _ _ _ _ _ _ Hinv E1) as (-> & Hinv1 & _).
  apply (frame_invariant _ _ s1); [done|]. by eapply exploit_explore_frame.
Qed.

(** A run on a population of [pop_size] members, at least one of them
    unless no generation is asked for, returns, having drawn [num_of]
    coins a generation. *)
Lemma run_total self pos :
  length (population self) = pop_size self ->
  1 <= pop_size self \/ generations self = 0 ->
  exists self',
    run draws self pos =
      inr (self', pos + generations self * num_of (pop_size self)).
Proof.
  intros Hlen Hpos. unfold run.
  destruct (for_each_progress
    (fun g s p => p = pos + g * num_of (pop_size self) /\ run_invariant self g s)
    (range (generations self))
    (fun i self =>
       self ← run_generation self;
       self ← exploit_explore draws self;
       last_scores ← last_item (scores self);
       _ ← np_max last_scores;
       ret self) self pos) as (self' & p' & E & -> & _).
  - split; [lia | apply run_invariant_0].
  - intros g x s p Hx [-> Hinv]. apply range_lookup in Hx as [-> Hg].
    destruct Hpos as [Hpos|Hpos]; [|lia].
    destruct (run_generation_spec s (pos + g * num_of (pop_size self)))
      as (s1 & sc0 & ls0 & E1 & _).
    destruct (run_generation_invariant _ _ _ _ _ _ Hinv E1)
      as (_ & Hinv1 & sc & Hsc & Hlsc).
    destruct Hinv1 as (Hset1 & Hcfg1 & Hrest1).
    assert (Hps : pop_size s1 = pop_size self).
    { unfold settings in Hset1. by simplify_eq. }
    assert (Hranked : ranked s1 sc).
    { unfold ranked. rewrite (configs_length _ _ Hcfg1), Hps.
      split_and!; [done | done | congruence]. }
    destruct (exploit_explore_spec s1 sc (pos + g * num_of (pop_size self)) Hranked)
      as (s2 & E2 & Hfr & _).
    cbv zeta in E2. rewrite Hps in E2.
    erewrite bind_inr by exact E1.
    erewrite bind_inr by exact E2.
    destruct Hfr as (Hset2 & Hgen2 & Hsc2 & Hls2 & Hcfg2).
    unfold last_item. rewrite Hsc2, Hsc.
    erewrite bind_inr by reflexivity.
    destruct sc as [|x sc]; [simpl in Hlsc; lia|].
    destruct (np_max_cons x sc (pos + g * num_of (pop_size self) + num_of (pop_size self)))
      as [m Em].
    erewrite bind_inr by exact Em.
    eexists _, _. split; [done|]. split; [lia|].
    apply (frame_invariant _ _ s1); [|by split_and!].
    by split.
  - unfold range in E at 2. rewrite length_seq in E. eauto.
Qed.
End PBTTrainerFacts.

(** * The claims *)

Section Claims.
Context `{Collaborators}.
Variable draws : nat -> Q.
Import PBTTrainer.




Lemma Qlt_bool_proper x x' y :
  (x == x')%Q -> Qlt_bool x y = Qlt_bool x' y.
Proof.
  intros E. destruct (Qlt_bool x' y) eqn:E'.
  - apply Qlt_bool_true in E'. apply Qlt_bool_true. by rewrite E.
  - apply Qlt_bool_false in E'. apply Qlt_bool_false. by rewrite E.
Qed.

Lemma coin_eq explore r :
  coin explore r = if Qlt_bool r 0.5 then explore.1 else explore.2.
Proof. unfold coin. rewrite (Qlt_bool_proper _ r); [done|ring]. Qed.


(** C5, as amended. With five members, the rank 'high' and the last scores
    [1, 5, 3, 2, 4], [ranker] returns [1, 4, 2, 3, 0] and
    [ceil(0.2 * 5)] is 1; [exploit_explore] flips one coin and leaves at
    place 0 the model with the weights of member 1 and with the perturbed
    copy of the hyperparameters in the config of member 1; the other four
    members are left as they were. *)
Theorem scenario_five self pos :
  pop_size self = 5 ->
  rank self = "high" ->
  length (population self) = 5 ->
  last (scores self) = Some [1; 5; 3; 2; 4]%Q ->
  ranker self pos = inr ([1; 4; 2; 3; 0], pos) /\
  Z.to_nat (Qceiling (0.2 * inject_Z 5)) = 1 /\
  exists self' source target,
    population self !! 1 = Some source /\
    population self !! 0 = Some target /\
    exploit_explore draws self pos = inr (self', pos + 1) /\
    population self' !! 0 =
      Some (Worker.with_model target
              (set_hyperparameters
                 (set_weights (Worker.model target)
                              (get_weights (Worker.model source)))
                 (perturb (Config.hyperparameters (Worker.config source))
                          (if Qlt_bool (draws pos) 0.5
                           then (explore self).1 else (explore self).2)))) /\
    forall j, j <> 0 -> population self' !! j = population self !! j.
Proof.
  intros Hps Hhigh Hlen Hsc.
  set (sc := [1; 5; 3; 2; 4]%Q) in *.
  assert (Hr : ranking self sc = [1; 4; 2; 3; 0]).
  { unfold ranking.
    rewrite (sorted_ext _ (fun k => score_of sc k * -1)%Q).
    - reflexivity.
    - intros k _. unfold rank_key. by rewrite decide_True. }
  assert (Hranked : ranked self sc) by (unfold ranked; by rewrite Hps).
  split_and!.
  - rewrite (ranker_eq self sc) by done. fold (ranking self sc). by rewrite Hr.
  - reflexivity.
  - destruct (exploit_explore_spec draws self sc pos Hranked)
      as (self' & E & _ & Hout & Hdone).
    rewrite Hps in E, Hout, Hdone. rewrite Hr in Hout, Hdone.
    change (num_of 5) with 1 in E, Hout, Hdone.
    destruct (Hdone 0) as (b & w & source & target & Hb & Hw & Hs & Ht & Hr');
      [lia|].
    simpl in Hb, Hw. simplify_eq.
    exists self', source, target. split_and!; try done.
    + rewrite Nat.add_0_r in Hr'. rewrite Hr'. unfold exploited.
      by rewrite coin_eq.
    + intros j Hj. apply Hout. intros i Hi.
      replace i with 0 by lia. simpl. congruence.
Qed.

(** C3, as amended. In a generation that returns, [run_generation] itself
    adds exactly 1 to [generation] and [exploit_explore] leaves the counter
    alone; what follows in the loop of [run] does not touch it either, so
    that a run that returns has added [generations] to it. *)
Theorem generation_counter self pos self2 pos2 :
  (run_generation self ≫= exploit_explore draws) pos = inr (self2, pos2) ->
  exists self1,
    run_generation self pos = inr (self1, pos) /\
    generation self1 = generation self + 1 /\
    exploit_explore draws self1 pos = inr (self2, pos2) /\
    generation self2 = generation self1 /\
    forall self' pos', run draws self pos = inr (self', pos') ->
                       generation self' = generation self + generations self.
Proof.
  intros E. apply bind_inv in E as (self1 & pos1 & E1 & E2).
  destruct (run_generation_spec self pos)
    as (s1' & sc & ls & E1' & _ & Hgen & _).
  rewrite E1 in E1'. simplify_eq.
  exists s1'. split_and!; try done.
  - by apply exploit_explore_frame in E2 as (_ & Hgen2 & _).
  - intros self' pos' Er. by apply run_inv in Er as (_ & _ & Hg & _).
Qed.

Lemma init_inv population_size generations rand_scales config explore rank
    pos self pos' :
  init draws population_size generations rand_scales config explore rank pos =
    inr (self, pos') ->
  pop_size self = population_size /\
  PBTTrainer.generations self = generations /\
  generation self = 0 /\
  PBTTrainer.rank self = rank /\
  scores self = [] /\ losses self = [] /\
  length (population self) = population_size.
Proof.
  unfold init. intros E. apply bind_inv in E as (population & p & E & Er).
  unfold ret in Er. simplify_eq. simpl. split_and!; try done.
  transitivity (length (range population_size));
    [|unfold range; apply length_seq].
  eapply (for_each_inv (fun k population _ => length population = k));
    [| |exact E]; [reflexivity|].
  intros k x pop p1 pop' p2 _ Hpop Hb.
  apply bind_inv in Hb as (w & p3 & _ & Hr). unfold ret in Hr. simplify_eq.
  rewrite length_app. simpl. lia.
Qed.

(** C8. On a scheduler just constructed for [generations] generations, with
    at least one member unless no generation is asked for, [run] returns;
    the scores history and the losses history then hold exactly
    [generations] entries, each with one value per member of the population,
    and [generation] equals [generations]. *)
Theorem run_histories population_size generations rand_scales config explore
    rank pos self pos0 :
  init draws population_size generations rand_scales config explore rank pos =
    inr (self, pos0) ->
  1 <= population_size \/ generations = 0 ->
  exists self' pos',
    run draws self pos0 = inr (self', pos') /\
    length (scores self') = generations /\
    length (losses self') = generations /\
    generation self' = generations /\
    Forall (fun row => length row = population_size) (scores self') /\
    Forall (fun row => length row = population_size) (losses self').
Proof.
  intros Hinit Hpos.
  destruct (init_inv _ _ _ _ _ _ _ _ _ Hinit)
    as (Hps & Hg & Hgen & _ & Hsc & Hls & Hlen).
  destruct (run_total draws self pos0) as [self' E].
  { by rewrite Hps. }
  { by rewrite Hps, Hg. }
  exists self', (pos0 + PBTTrainer.generations self * num_of (pop_size self)).
  split; [done|].
  apply run_inv in E as (_ & _ & Hgen' & Hsc' & Hls').
  destruct Hsc' as (srows & Es & Hsl & Hsf), Hls' as (lrows & El & Hll & Hlf).
  rewrite Hsc in Es. rewrite Hls in El. simpl in Es, El. subst.
  rewrite Hlen in Hsf, Hlf. split_and!; try done. lia.
Qed.

Lemma perform_configs op self pos self' pos' :
  perform draws op self pos = inr (self', pos') -> configs self' = configs self.
Proof.
  destruct op; simpl; intros E.
  - destruct (run_generation_spec self pos) as (s & sc & ls & E' & _ & _ & Hc & _).
    rewrite E in E'. by simplify_eq.
  - apply bind_inv in E as (r & p & _ & E). unfold ret in E. by simplify_eq.
  - by apply exploit_explore_frame in E as (_ & _ & _ & _ & Hc).
  - by apply run_inv in E as (_ & Hc & _).
Qed.

(** C9. Whatever operations are performed on a scheduler after its
    construction, in whatever order, if they return then the [trainer] and
    the [evaluator] entries of the config of every member are those the
    member was constructed with, which are those of the base config. *)
Theorem static_subtrees population_size generations rand_scales config explore
    rank pos self pos0 ops self' pos' :
  init draws population_size generations rand_scales config explore rank pos =
    inr (self, pos0) ->
  for_each ops (perform draws) self pos0 = inr (self', pos') ->
  Config.trainer <$> configs self' = Config.trainer <$> configs self /\
  Config.evaluator <$> configs self' = Config.evaluator <$> configs self /\
  Forall (static_entries config) (population self').
Proof.
  intros Hinit Hops.
  assert (Hc : configs self' = configs self).
  { eapply (for_each_inv (fun _ s _ => configs s = configs self));
      [| |exact Hops]; [reflexivity|].
    intros k op s p s1 p1 _ Hs E. rewrite <- Hs. by eapply perform_configs. }
  rewrite Hc. split_and!; try done.
  apply init_static in Hinit.
  unfold configs in Hc. unfold static_entries in *.
  rewrite Forall_lookup in Hinit. apply Forall_lookup. intros i w' Hw'.
  assert (Hi : (Worker.config <$> population self') !! i = Some (Worker.config w')).
  { by rewrite list_lookup_fmap, Hw'. }
  rewrite Hc, list_lookup_fmap in Hi.
  destruct (population self !! i) as [w|] eqn:Hw; simplify_eq/=.
  rewrite <- Hi. by apply (Hinit i).
Qed.




(** C2, as amended. When the population has at least one member and a
    hyperparameter of the base config has no scale, those before it in the
    dict having scales that are not zero, the construction raises the
    lookup failure of the subscript itself: a [KeyError] that carries the
    name of the first such parameter.  No worker is built with a default. *)
Theorem init_missing_scale population_size generations rand_scales config
    explore rank pre param value post pos :
  1 <= population_size ->
  Config.hyperparameters config = pre ++ (param, value) :: post ->
  (forall p, p ∈ keys pre -> usable rand_scales p) ->
  dict_get rand_scales param = None ->
  init draws population_size generations rand_scales config explore rank pos =
    inl (KeyError param) /\
  raw_lookup_failure (KeyError param).
Proof.
  intros Hn Hhp Hus Hnone. split; [|done].
  unfold init.
  destruct population_size as [|n]; [lia|].
  apply bind_inl. simpl. apply bind_inl. apply bind_inl.
  unfold new_worker, dc. apply bind_inl. rewrite Hhp at 1.
  by apply randomize_missing.
Qed.
End Claims.

(** * The claims on the fixture *)

Section OnFixture.
Import PBTTrainer Fixture.

(** C1. The code at a failing input: after [exploit_explore] on the five
    scored members, the model of member 0, the worst, has been given the
    hyperparameters of member 1, the best, times 1.2, while the config of
    member 0 still holds the value it held before the call. *)
Theorem exploit_explore_config_stale :
  exists self' target,
    exploit_explore quarter five_scored 0 = inr (self', 1) /\
    population self' !! 0 = Some target /\
    hp (Worker.model target) = [("lr"%string, (2 * 1.2)%Q)] /\
    Config.hyperparameters (Worker.config target) = [("lr"%string, 1%Q)] /\
    Config.hyperparameters (Worker.config target) <> hp (Worker.model target).
Proof.
  eexists _, _. split_and!; [vm_compute; reflexivity | reflexivity ..| ].
  simpl. intros E. discriminate E.
Qed.

(** The scores [1, 5, 3, 2, 4] are ranked [1, 4, 2, 3, 0] by the rank
    'high', not [1, 2, 4, 3, 0]; nor does the rank spelled 'maximize' give
    that ranking. *)
Lemma scenario_ranking_counterexample :
  ranker five_scored 0 = inr ([1; 4; 2; 3; 0], 0) /\
  ranker five_scored 0 <> inr ([1; 2; 4; 3; 0], 0) /\
  ranker (five_ranked "maximize") 0 <> inr ([1; 2; 4; 3; 0], 0).
Proof.
  split_and!; [reflexivity | |]; vm_compute; intros E; discriminate E.
Qed.

(** [run_generation] does not leave the counter as it found it. *)
Lemma run_generation_counter_counterexample :
  exists self',
    run_generation five 0 = inr (self', 0) /\
    generation self' <> generation five.
Proof. eexists. split; [vm_compute; reflexivity|]. simpl. lia. Qed.

(** A base config with a hyperparameter that has no scale: the construction
    fails with the lookup failure of the subscript. *)
Lemma init_missing_scale_counterexample :
  ~ configuration_error
      (init quarter 2 3 [("lr"%string, 2%Q)] base (1.2, 0.8)%Q "high" 0).
Proof.
  intros (e & E & Hraw). vm_compute in E. simplify_eq. by apply Hraw.
Qed.



(** The scenario of five members, on the five scored members. *)
Lemma scenario_five_witness :
  ranker five_scored 0 = inr ([1; 4; 2; 3; 0], 0) /\
  exists self',
    exploit_explore quarter five_scored 0 = inr (self', 0 + 1) /\
    forall j, j <> 0 -> population self' !! j = population five_scored !! j.
Proof.
  destruct (scenario_five quarter five_scored 0)
    as (Hr & _ & self' & source & target & _ & _ & E & _ & Hout);
    [reflexivity ..|].
  split; [exact Hr|]. exists self'. split; [exact E | exact Hout].
Defined.

(** A generation of the five members moves the counter from 0 to 1. *)
Lemma generation_counter_witness :
  exists self1,
    run_generation five 0 = inr (self1, 0) /\
    generation self1 = generation five + 1 /\
    exploit_explore quarter self1 0 = inr (five_explored, 1) /\
    generation five_explored = generation self1 /\
    forall self' pos', run quarter five 0 = inr (self', pos') ->
                       generation self' = generation five + generations five.
Proof.
  apply (generation_counter quarter five 0 five_explored 1).
  vm_compute. reflexivity.
Defined.

(** Without a scale for 'dropout' the construction raises the KeyError. *)
Lemma init_missing_scale_witness :
  init quarter 2 3 [("lr"%string, 2%Q)] base (1.2, 0.8)%Q "high" 0 =
    inl (KeyError "dropout") /\
  raw_lookup_failure (KeyError "dropout").
Proof.
  apply (init_missing_scale quarter 2 3 [("lr"%string, 2%Q)] base
           (1.2, 0.8)%Q "high" [("lr"%string, 2%Q)] "dropout" 0.5%Q [] 0).
  - lia.
  - reflexivity.
  - intros p Hp. simpl in Hp. apply list_elem_of_singleton in Hp as ->.
    exists 2%Q. split; [reflexivity|]. intros E. discriminate E.
  - reflexivity.
Defined.

(** Its run of three generations. *)
Lemma run_histories_witness :
  exists self' pos',
    run quarter constructed 10 = inr (self', pos') /\
    length (scores self') = 3 /\
    length (losses self') = 3 /\
    generation self' = 3 /\
    Forall (fun row => length row = 5) (scores self') /\
    Forall (fun row => length row = 5) (losses self').
Proof.
  apply (run_histories quarter 5 3 scales base (1.2, 0.8)%Q "high" 0
           constructed 10).
  - vm_compute. reflexivity.
  - left. lia.
Defined.

Lemma static_subtrees_witness :
  Config.trainer <$> configs operated = Config.trainer <$> configs constructed /\
  Config.evaluator <$> configs operated =
    Config.evaluator <$> configs constructed /\
  Forall (static_entries base) (population operated).
Proof.
  apply (static_subtrees quarter 5 3 scales base (1.2, 0.8)%Q "high" 0
           constructed 10 [RunGeneration; Ranker; ExploitExplore; Run]
           operated 14).
  - vm_compute. reflexivity.
  - vm_compute. reflexivity.
Defined.

End OnFixture.

(** * Further properties of the code *)

Section Further.
Context `{Collaborators}.
Variable draws : nat -> Q.
Import PBTTrainer.

(** The closed form of [run_generation]. *)
Lemma run_generation_closed self pos :
  exists self',
    run_generation self pos = inr (self', pos) /\
    population self' = (fun w => (Worker.run w).1) <$> population self /\
    scores self' =
      scores self ++ [(fun w => (Worker.run w).2.2) <$> population self] /\
    losses self' =
      losses self ++ [(fun w => (Worker.run w).2.1) <$> population self] /\
    generation self' = generation self + 1 /\
    settings self' = settings self.
Proof.
  unfold run_generation.
  set (self0 := with_scores _ _).
  set (pop0 := population self).
  destruct (for_each_progress
    (fun k s p =>
       k <= length pop0 ->
       p = pos /\ settings s = settings self /\
       generation s = generation self /\
       population s = ((fun w => (Worker.run w).1) <$> take k pop0) ++ drop k pop0 /\
       scores s = scores self ++ [(fun w => (Worker.run w).2.2) <$> take k pop0] /\
       losses s = losses self ++ [(fun w => (Worker.run w).2.1) <$> take k pop0])
    (imap pair (population self0))
    (fun '(i, worker) self =>
       let '(worker, (loss, score)) := Worker.run worker in
       let self := with_population self (<[i := worker]> (population self)) in
       ls ← append_to_last (losses self) loss;
       let self := with_losses self ls in
       ss ← append_to_last (scores self) score;
       ret (with_scores self ss)) self0 pos)
    as (s' & p' & E & HP).
  - intros _. simpl. by split_and!.
  - intros k [i worker] s p Hk HP.
    rewrite list_lookup_imap in Hk. simpl in Hk. fold pop0 in Hk.
    destruct (pop0 !! k) as [worker0|] eqn:Hw0; [|done].
    simpl in Hk. injection Hk as <- <-.
    destruct HP as (-> & Hset & Hgen & Hpop & Hsc & Hls).
    { apply lookup_lt_Some in Hw0. lia. }
    destruct (Worker.run worker0) as [worker' [loss score]] eqn:Erun. simpl.
    rewrite Hls. erewrite bind_inr by apply append_to_last_snoc. simpl.
    rewrite Hsc. erewrite bind_inr by apply append_to_last_snoc.
    eexists _, _. split; [done|]. intros _. simpl.
    rewrite !(take_S_r _ _ _ Hw0), !fmap_app. simpl. rewrite Erun. simpl.
    split_and!; try done.
    rewrite Hpop, (drop_S _ _ _ Hw0).
    replace k with (length ((fun w => (Worker.run w).1) <$> take k pop0) + 0) at 1.
    + rewrite insert_app_r. simpl. by rewrite <- app_assoc.
    + rewrite length_fmap, length_take. apply lookup_lt_Some in Hw0. lia.
  - rewrite length_imap in HP. simpl in HP. fold pop0 in HP.
    destruct HP as (-> & Hset & Hgen & Hpop & Hsc & Hls); [done|].
    rewrite firstn_all, drop_all, app_nil_r in *.
    erewrite bind_inr by exact E.
    eexists. split; [done|]. simpl. split_and!; try done. by rewrite Hgen.
Qed.

(** X1. [run_generation] always returns.  It replaces every member by what
    [Worker.run] makes of it, appends to the scores history one row that
    holds the score of every member in the order of the population, appends
    the row of their losses to the losses history, keeps the earlier rows of
    both, and adds 1 to [generation]. *)
Theorem run_generation_rows self pos :
  exists self',
    run_generation self pos = inr (self', pos) /\
    population self' = (fun w => (Worker.run w).1) <$> population self /\
    scores self' =
      scores self ++ [(fun w => (Worker.run w).2.2) <$> population self] /\
    losses self' =
      losses self ++ [(fun w => (Worker.run w).2.1) <$> population self] /\
    generation self' = generation self + 1 /\
    settings self' = settings self.
Proof. apply run_generation_closed. Qed.
(** X2. On a scheduler that has been constructed and has not yet run a
    generation, [ranker] and [exploit_explore] raise [IndexError]: the
    scores history is empty and both read its last row. *)
Theorem unscored_raises population_size generations rand_scales config explore
    rank pos self pos0 pos1 :
  init draws population_size generations rand_scales config explore rank pos =
    inr (self, pos0) ->
  ranker self pos1 = inl IndexError /\
  exploit_explore draws self pos1 = inl IndexError.
Proof.
  intros Hinit.
  apply init_inv in Hinit as (_ & _ & _ & _ & Hsc & _).
  assert (E : ranker self pos1 = inl IndexError).
  { unfold ranker, last_item. rewrite Hsc. reflexivity. }
  split; [exact E|]. unfold exploit_explore. by apply bind_inl.
Qed.

(** X3. With [population_size] 0 the construction returns whatever the
    scales are, with an empty population and without a draw.  A run of the
    scheduler it gives raises [ValueError], from [np.max] of the empty row
    of scores, as soon as one generation is asked for; asked for none, it
    returns the scheduler as it is. *)
Theorem empty_population generations rand_scales config explore rank pos :
  exists self,
    init draws 0 generations rand_scales config explore rank pos =
      inr (self, pos) /\
    population self = [] /\
    (1 <= generations -> run draws self pos = inl ValueError) /\
    (generations = 0 -> run draws self pos = inr (self, pos)).
Proof.
  eexists. split; [reflexivity|]. split; [reflexivity|]. split.
  - intros Hg. unfold run. simpl PBTTrainer.generations.
    destruct generations as [|g]; [lia|]. reflexivity.
  - intros ->. reflexivity.
Qed.

Lemma randomize_zero rand_scales pre param value post new_hp pos scale :
  (forall p, p ∈ keys pre -> usable rand_scales p) ->
  dict_get rand_scales param = Some scale -> (scale == 0)%Q ->
  randomize draws rand_scales (pre ++ (param, value) :: post) new_hp pos =
  inl ZeroDivisionError.
Proof.
  intros Hus Hs Hz. unfold randomize. rewrite for_each_app.
  destruct (for_each_progress (fun _ _ _ => True) pre
    (fun '(param, value) new_hp =>
       scale ← getitem rand_scales param;
       low ← one_over scale;
       u ← uniform draws low scale;
       ret (dict_set new_hp param (u * value)%Q)) new_hp pos)
    as (hp & p & E & _); [done| |].
  - intros k [k' v'] hp p Hk _.
    destruct (Hus k') as (scale' & Hs' & Hz').
    { unfold keys. apply list_elem_of_fmap. exists (k', v'). split; [done|].
      by eapply list_elem_of_lookup_2. }
    eexists _, _. split; [by apply randomize_step | done].
  - erewrite bind_inr by exact E. simpl.
    apply bind_inl. unfold getitem. rewrite Hs.
    erewrite bind_inr by reflexivity.
    apply bind_inl. unfold one_over.
    apply Qeq_bool_iff in Hz. by rewrite Hz.
Qed.

(** X4. When the population has at least one member and the first
    hyperparameter of the base config whose scale cannot be used has the
    scale zero, the construction raises [ZeroDivisionError], from
    [1/rand_scales[param]]. *)
Theorem init_zero_scale population_size generations rand_scales config
    explore rank pre param value post pos scale :
  1 <= population_size ->
  Config.hyperparameters config = pre ++ (param, value) :: post ->
  (forall p, p ∈ keys pre -> usable rand_scales p) ->
  dict_get rand_scales param = Some scale ->
  (scale == 0)%Q ->
  init draws population_size generations rand_scales config explore rank pos =
    inl ZeroDivisionError.
Proof.
  intros Hn Hhp Hus Hs Hz. unfold init.
  destruct population_size as [|n]; [lia|].
  apply bind_inl. simpl. apply bind_inl. apply bind_inl.
  unfold new_worker, dc. apply bind_inl. rewrite Hhp at 1.
  by eapply randomize_zero.
Qed.

(** X5. The number of pairs of [exploit_explore] is the fifth of the
    population size rounded up: none for an empty population, at least one
    otherwise, never more than there are members, and at most half of them
    unless the population has a single member. *)
Theorem num_of_bounds n :
  num_of n = (n + 4) / 5 /\
  (n = 0 -> num_of n = 0) /\
  (1 <= n -> 1 <= num_of n) /\
  num_of n <= n /\
  (n <> 1 -> 2 * num_of n <= n).
Proof.
  split_and!.
  - apply num_of_eq.
  - intros ->. reflexivity.
  - apply num_of_pos.
  - apply num_of_le.
  - apply num_of_twice.
Qed.

(** The places of a source and of a target in the ranking. *)
Lemma source_before_target n idx idx' :
  idx < num_of n -> idx' < num_of n ->
  (n = 1 /\ idx = n - num_of n + idx') \/
  (n <> 1 /\ idx < n - num_of n + idx').
Proof.
  intros Hi Hi'. pose proof (num_of_le n).
  destruct (decide (n = 1)) as [Hn|Hn].
  - left. split; [done|]. lia.
  - right. split; [done|]. pose proof (num_of_twice n Hn). lia.
Qed.


(** X7. In a call of [exploit_explore] on a scored population of other than
    one member, the members read from and the members written to are
    different members, and no member is written to twice. *)
Theorem sources_targets_disjoint self sc idx idx' b w w' :
  ranked self sc ->
  pop_size self <> 1 ->
  idx < num_of (pop_size self) ->
  idx' < num_of (pop_size self) ->
  ranking self sc !! idx = Some b ->
  ranking self sc !! (pop_size self - num_of (pop_size self) + idx) = Some w ->
  ranking self sc !! (pop_size self - num_of (pop_size self) + idx') = Some w' ->
  b <> w' /\ (idx <> idx' -> w <> w').
Proof.
  intros _ Hn Hi Hi' Hb Hw Hw'.
  pose proof (ranking_NoDup self sc) as Hnd.
  destruct (source_before_target _ _ _ Hi Hi') as [[? _]|[_ Hlt]]; [done|].
  split.
  - intros ->. pose proof (NoDup_lookup _ _ _ _ Hnd Hb Hw'). lia.
  - intros Hne ->. pose proof (NoDup_lookup _ _ _ _ Hnd Hw Hw'). lia.
Qed.

(** X8. A scored population of one member exploits itself: the only pair
    of [exploit_explore] reads and writes member 0, which is left with its
    own weights set again and with its own configured hyperparameters
    perturbed. *)
Theorem single_member_exploits_itself self sc pos :
  ranked self sc ->
  pop_size self = 1 ->
  exists m self',
    population self = [m] /\
    exploit_explore draws self pos = inr (self', pos + 1) /\
    population self' =
      [Worker.with_model m
         (set_hyperparameters
            (set_weights (Worker.model m) (get_weights (Worker.model m)))
            (perturb (Config.hyperparameters (Worker.config m))
                     (if Qlt_bool (draws pos) 0.5
                      then (explore self).1 else (explore self).2)))].
Proof.
  intros Hranked Hn.
  destruct (exploit_explore_spec draws self sc pos Hranked)
    as (self' & E & Hfr & _ & Hdone).
  rewrite Hn in E, Hdone. change (num_of 1) with 1 in E, Hdone.
  destruct (Hdone 0) as (b & w & source & target & Hb & Hw & Hs & Ht & Hr); [lia|].
  destruct Hranked as (Hlen & _ & Hsc).
  apply ranking_lt in Hb, Hw. rewrite Hsc, Hn in Hb, Hw.
  assert (b = 0) as -> by lia. assert (w = 0) as -> by lia.
  rewrite Hn in Hlen.
  pose proof (configs_length _ _ (proj2 (proj2 (proj2 (proj2 Hfr))))) as Hlen'.
  rewrite Hlen in Hlen'.
  destruct (population self) as [|m [|? ?]] eqn:Hpop; simpl in Hlen; try lia.
  simpl in Hs, Ht. injection Hs as <-. injection Ht as <-.
  destruct (population self') as [|m' [|? ?]] eqn:Hpop'; simpl in Hlen'; try lia.
  simpl in Hr. injection Hr as ->.
  exists m, self'. split_and!; try done.
  rewrite Hpop'. unfold exploited. rewrite coin_eq. by rewrite Nat.add_0_r.
Qed.
Lemma exploit_explore_pair_attributes best worst idx self pos self' pos' :
  exploit_explore_pair draws best worst idx self pos = inr (self', pos') ->
  attributes <$> population self' = attributes <$> population self.
Proof.
  unfold exploit_explore_pair. intros E.
  apply bind_inv in E as (w & p & E1 & E). apply subscript_inv in E1 as [Hw ->].
  apply bind_inv in E as (target & p & E1 & E). apply subscript_inv in E1 as [Ht ->].
  apply bind_inv in E as (b & p & E1 & E). apply subscript_inv in E1 as [Hb ->].
  apply bind_inv in E as (source & p & E1 & E). apply subscript_inv in E1 as [Hs ->].
  cbv beta zeta in E.
  apply bind_inv in E as (b' & p & E1 & E). apply subscript_inv in E1 as [Hb' ->].
  apply bind_inv in E as (source' & p & E1 & E). apply subscript_inv in E1 as [Hs' ->].
  apply bind_inv in E as (u & p & E1 & E). unfold uniform in E1. simplify_eq.
  apply bind_inv in E as (w' & p & E1 & E). apply subscript_inv in E1 as [Hw' ->].
  apply bind_inv in E as (target' & p & E1 & E). apply subscript_inv in E1 as [Ht' ->].
  unfold ret in E. simplify_eq. simpl in *.
  rewrite !list_fmap_insert.
  assert (Hc : attributes target' = attributes target).
  { rewrite list_lookup_insert_eq in Ht' by (by eapply lookup_lt_Some).
    by simplify_eq. }
  unfold attributes at 1. simpl. fold (attributes target'). rewrite Hc.
  rewrite list_insert_insert_eq.
  apply list_insert_id. by rewrite list_lookup_fmap, Ht.
Qed.

(** X9. A call of [exploit_explore] that returns has changed nothing but
    models: every member keeps its config, its last losses and its last
    score, the population keeps its length, and the histories, the counter
    and the settings of the scheduler are kept.  A call of [ranker] after it
    therefore gives the ranking it gave before it. *)
Theorem exploit_explore_only_models self pos self' pos' pos1 :
  exploit_explore draws self pos = inr (self', pos') ->
  attributes <$> population self' = attributes <$> population self /\
  length (population self') = length (population self) /\
  scores self' = scores self /\
  losses self' = losses self /\
  generation self' = generation self /\
  settings self' = settings self /\
  ranker self' pos1 = ranker self pos1.
Proof.
  intros E.
  pose proof (exploit_explore_frame _ _ _ _ _ E) as (Hset & Hgen & Hsc & Hls & Hcfg).
  assert (Hattr : attributes <$> population self' = attributes <$> population self).
  { unfold exploit_explore in E. apply bind_inv in E as (ranks & p & _ & E).
    eapply (for_each_inv (fun _ s _ =>
              attributes <$> population s = attributes <$> population self));
      [| |exact E]; [reflexivity|].
    intros k x s p1 s1 p2 _ Hs Hstep. rewrite <- Hs.
    by eapply exploit_explore_pair_attributes. }
  split_and!; try done.
  - by apply configs_length.
  - unfold ranker. rewrite Hsc.
    assert (Hrank : rank self' = rank self).
    { unfold settings in Hset. by simplify_eq. }
    by rewrite Hrank.
Qed.

(** X10. When the hyperparameters of the base config are a well-formed
    dict and each has a scale that is not zero, every worker of the new
    population has the keys of the base hyperparameters, in their order, the
    other entries of the base config, a model built by the model class from
    its own hyperparameters, and no losses and no score yet; the scheduler
    keeps the base config as it was given. *)
Theorem init_workers population_size generations rand_scales config explore
    rank pos :
  dict_wf (Config.hyperparameters config) ->
  (forall param, param ∈ keys (Config.hyperparameters config) ->
     usable rand_scales param) ->
  exists self pos',
    init draws population_size generations rand_scales config explore rank pos =
      inr (self, pos') /\
    PBTTrainer.config self = config /\
    forall i w, population self !! i = Some w ->
      keys (Config.hyperparameters (Worker.config w)) =
        keys (Config.hyperparameters config) /\
      Config.generation (Worker.config w) = Config.generation config /\
      Config.trainer (Worker.config w) = Config.trainer config /\
      Config.evaluator (Worker.config w) = Config.evaluator config /\
      Worker.model w = model_class (Config.hyperparameters (Worker.config w)) /\
      Worker.losses w = None /\
      Worker.score w = None.
Proof.
  intros Hwf Hus. eexists _, _. split; [by apply init_eq|]. simpl.
  split; [done|]. intros i w Hw.
  rewrite list_lookup_fmap in Hw.
  destruct (range population_size !! i) as [k|]; simplify_eq/=.
  split_and!; try done. apply randomized_keys.
Qed.

(** X11. On a scheduler whose population has [pop_size] members, at least
    one unless no generation is asked for, [run] returns, whatever the
    histories hold already: it appends [generations] rows of [pop_size]
    values to each history and keeps the rows that were there, adds
    [generations] to the counter, keeps the settings, the length of the
    population and the config of every member, hyperparameters included, and
    draws [ceil(0.2 * pop_size)] coins a generation. *)
Theorem run_appends self pos :
  length (population self) = pop_size self ->
  1 <= pop_size self \/ generations self = 0 ->
  exists self' score_rows loss_rows,
    run draws self pos =
      inr (self', pos + generations self * num_of (pop_size self)) /\
    scores self' = scores self ++ score_rows /\
    losses self' = losses self ++ loss_rows /\
    length score_rows = generations self /\
    length loss_rows = generations self /\
    Forall (fun row => length row = pop_size self) score_rows /\
    Forall (fun row => length row = pop_size self) loss_rows /\
    generation self' = generation self + generations self /\
    settings self' = settings self /\
    length (population self') = pop_size self /\
    configs self' = configs self.
Proof.
  intros Hlen Hpos.
  destruct (run_total draws self pos Hlen Hpos) as [self' E].
  pose proof (run_inv _ _ _ _ _ E) as (Hset & Hcfg & Hgen & Hsc & Hls).
  destruct Hsc as (srows & Es & Hsl & Hsf), Hls as (lrows & El & Hll & Hlf).
  rewrite Hlen in Hsf, Hlf.
  exists self', srows, lrows. split_and!; try done.
  by rewrite (configs_length _ _ Hcfg).
Qed.
End Further.

Section FurtherReport.
Context `{Collaborators}.
Variable draws : nat -> Q.
Variable clock : nat -> Q.
Import PBTTrainer.

Lemma for_each_projected {X A B} (proj : B -> A) (xs : list X)
    (bodyA : X -> A -> M A) (bodyB : X -> B -> M B) :
  (forall x b pos, bodyA x (proj b) pos = projected proj (bodyB x b pos)) ->
  forall b pos,
    for_each xs bodyA (proj b) pos = projected proj (for_each xs bodyB b pos).
Proof.
  intros Hbody. induction xs as [|x xs IH]; intros b pos; simpl; [done|].
  unfold mbind, M_bind, bind. rewrite Hbody.
  destruct (bodyB x b pos) as [e|[b' pos']]; simpl; [done|]. apply IH.
Qed.

(** X12. What [run] prints has no part in what it does: the run with its
    report raises when [run] raises, with the same exception, and otherwise
    leaves the scheduler and the random stream as [run] leaves them. *)
Theorem run_reported_state self pos :
  run draws self pos = projected fst (run_reported draws clock self pos).
Proof.
  unfold run, run_reported.
  pose proof (for_each_projected (fun st : t * Q * list metrics => st.1.1)
                (range (generations self))
                (fun i self =>
                   self ← run_generation self;
                   self ← exploit_explore draws self;
                   last_scores ← last_item (scores self);
                   _ ← np_max last_scores;
                   ret self)
                (run_reported_step draws clock)) as Hloop.
  assert (Hbody : forall i (st : t * Q * list metrics) p,
            (self ← run_generation st.1.1;
             self ← exploit_explore draws self;
             last_scores ← last_item (scores self);
             _ ← np_max last_scores;
             ret self) p =
            projected (fun st : t * Q * list metrics => st.1.1)
                      (run_reported_step draws clock i st p)).
  { intros i [[s speed] printed] p. simpl.
    unfold run_reported_step, mbind, M_bind, bind.
    destruct (run_generation s p) as [e|[s1 p1]]; [done|].
    destruct (exploit_explore draws s1 p1) as [e|[s2 p2]]; [done|].
    destruct (last_item (scores s2) p2) as [e|[row p3]]; [done|].
    by destruct (np_max row p3) as [e|[best p4]]. }
  specialize (Hloop Hbody (self, 0%Q, []) pos). simpl in Hloop.
  rewrite Hloop.
  unfold mbind, M_bind, bind.
  by destruct (for_each (range (generations self))
                 (run_reported_step draws clock) (self, 0%Q, []) pos)
    as [e|[[[s speed] printed] p]].
Qed.








End FurtherReport.

(** * The further properties on the fixture *)

Section FurtherOnFixture.
Import PBTTrainer Fixture ReportFixture.

(** The constructed scheduler has no scores to rank. *)
Lemma unscored_raises_witness :
  ranker constructed 10 = inl IndexError /\
  exploit_explore quarter constructed 10 = inl IndexError.
Proof.
  apply (unscored_raises quarter 5 3 scales base (1.2, 0.8)%Q "high" 0
           constructed 10 10).
  vm_compute. reflexivity.
Defined.

(** A scale of zero for 'lr'. *)
Lemma init_zero_scale_witness :
  init quarter 2 3 zero_scales base (1.2, 0.8)%Q "high" 0 =
    inl ZeroDivisionError.
Proof.
  apply (init_zero_scale quarter 2 3 zero_scales base (1.2, 0.8)%Q "high"
           [] "lr" 2%Q [("dropout"%string, 0.5%Q)] 0 0%Q).
  - lia.
  - reflexivity.
  - intros p Hp. simpl in Hp. by apply elem_of_nil in Hp.
  - reflexivity.
  - reflexivity.
Defined.


Lemma sources_targets_disjoint_witness :
  1 <> 0 /\ (0 <> 0 -> 0 <> 0).
Proof.
  assert (Hranked : ranked five_scored [1; 5; 3; 2; 4]%Q).
  { unfold ranked. split_and!; reflexivity. }
  apply (sources_targets_disjoint five_scored [1; 5; 3; 2; 4]%Q 0 0 1 0 0
           Hranked).
  - simpl. lia.
  - simpl. change (num_of 5) with 1. lia.
  - simpl. change (num_of 5) with 1. lia.
  - reflexivity.
  - reflexivity.
  - reflexivity.
Defined.

(** The member that is alone is its own source. *)
Lemma single_member_exploits_itself_witness :
  exists m self' w,
    population alone = [m] /\
    exploit_explore quarter alone 0 = inr (self', 0 + 1) /\
    population self' = [w] /\
    hp (Worker.model w) = [("lr"%string, (3 * 1.2)%Q)].
Proof.
  assert (Hranked : ranked alone [7%Q]).
  { unfold ranked. split_and!; reflexivity. }
  destruct (single_member_exploits_itself quarter alone [7%Q] 0 Hranked)
    as (m & self' & Hm & E & Hpop); [reflexivity|].
  eexists m, self', _. split_and!; [exact Hm | exact E | exact Hpop |].
  simpl in Hm. injection Hm as <-. reflexivity.
Defined.

(** [exploit_explore] on the five scored members. *)
Lemma exploit_explore_only_models_witness :
  attributes <$> population five_explored =
    attributes <$> population five_scored /\
  ranker five_explored 0 = ranker five_scored 0.
Proof.
  destruct (exploit_explore_only_models quarter five_scored 0 five_explored 1 0)
    as (Ha & _ & _ & _ & _ & _ & Hr).
  - vm_compute. reflexivity.
  - split; [exact Ha | exact Hr].
Defined.

(** The workers constructed from the base config of the fixture. *)
Lemma init_workers_witness :
  exists self pos',
    init quarter 5 3 scales base (1.2, 0.8)%Q "high" 0 = inr (self, pos') /\
    PBTTrainer.config self = base.
Proof.
  assert (Hwf : dict_wf (Config.hyperparameters base)).
  { unfold dict_wf. simpl. apply NoDup_cons. split; [|apply NoDup_singleton].
    intros Hin. apply list_elem_of_singleton in Hin. discriminate Hin. }
  assert (Hus : forall param, param ∈ keys (Config.hyperparameters base) ->
                  usable scales param).
  { simpl. intros param Hin.
    apply elem_of_cons in Hin as [->|Hin];
      [|apply list_elem_of_singleton in Hin as ->].
    - exists 2%Q. split; [reflexivity|]. intros E. discriminate E.
    - exists 4%Q. split; [reflexivity|]. intros E. discriminate E. }
  destruct (init_workers quarter 5 3 scales base (1.2, 0.8)%Q "high" 0 Hwf Hus)
    as (self & pos' & E & Hc & _).
  exists self, pos'. split; [exact E | exact Hc].
Defined.

(** Three more generations of the five scored members. *)
Lemma run_appends_witness :
  exists self' score_rows,
    run quarter five_scored 0 = inr (self', 0 + 3 * num_of 5) /\
    scores self' = [[1; 5; 3; 2; 4]%Q] ++ score_rows /\
    length score_rows = 3.
Proof.
  destruct (run_appends quarter five_scored 0)
    as (self' & srows & lrows & E & Hs & _ & Hl & _).
  - reflexivity.
  - left. simpl. lia.
  - exists self', srows. split_and!; [exact E | exact Hs | exact Hl].
Defined.



End FurtherOnFixture.
